(** * cdf2cim.io_manager: a shallow embedding and its checked properties

    The module under study is [src/cdf2cim/io_manager.py].  It has four
    functions:

    - [encode]          turns a map/reduce output into a JSON safe ordered dict;
    - [yield_files]     expands search criteria into absolute file paths;
    - [yield_cf_files]  opens every path with the cf reader, skipping failures;
    - [dump]            writes the encoded metadata below [IO_DIR].

    Python values are a tagged variant, exceptions are an error result, the
    state that [dump] touches is threaded explicitly, and the directory tree
    that [yield_files] reads is an inductive tree of directories, files and
    symbolic links. *)

From Stdlib Require Import ZArith Ascii String List Floats.SpecFloat.
From stdpp Require Import gmap strings list fin_maps sorting pretty.

Set Warnings "-register-all,-clear-no-such-hyp".


(* ===================================================================== *)
(** * Python values, exceptions and results *)
(* ===================================================================== *)

Module Py.

(** The run-time values that reach this module.  A float is kept as the
    sign, mantissa and exponent of its IEEE-754 datum ([spec_float]): the
    only arithmetic the module performs on it is the truncation of [int()]. *)
Inductive value : Type :=
| NpFloat64 (f : spec_float)      (* numpy.float64 *)
| NpInt32 (n : Z)                 (* numpy.int32 *)
| NpFloat32 (f : spec_float)      (* numpy.float32, which is no float64 *)
| NpInt64 (n : Z)                 (* numpy.int64, which is no int32 *)
| PyFloat (f : spec_float)        (* float *)
| PyInt (n : Z)                   (* int, long *)
| PyBool (b : bool)               (* bool *)
| PyStr (s : string)              (* str, unicode: basestring *)
| PyNone                          (* None *)
| PyList (items : list value).    (* list, tuple, set: a re-iterable collection *)

(** The exception classes that can travel through the module. *)
Inductive exn : Type :=
| TypeError
| ValueError
| OverflowError
| KeyError (k : string)
| IOError
| OSError
| InvalidFileSearchCriteria (criteria : value)
| OtherError (cls : string).

Inductive result (A : Type) : Type :=
| Ok (a : A)
| Raise (e : exn).
Global Arguments Ok {A} a.
Global Arguments Raise {A} e.

(** Exceptions propagate through sequenced computations: the error monad. *)
Global Instance result_ret : MRet result := λ A a, Ok a.
Global Instance result_bind : MBind result := λ A B k r,
  match r with
  | Ok a => k a
  | Raise e => Raise e
  end.

(** ** String helpers that follow the Python string methods *)

(** [s.endswith(suffix)]: [suffix] is a final segment of [s]. *)
Fixpoint endswith (s suffix : string) : bool :=
  bool_decide (s = suffix)
  || match s with
     | EmptyString => false
     | String _ s' => endswith s' suffix
     end.

(** [s.startswith(prefix)]. *)
Definition startswith (s prefix : string) : bool := String.prefix prefix s.

Fixpoint lstrip (s : string) : string :=
  match s with
  | String c s' => if Ascii.is_space c then lstrip s' else s
  | EmptyString => EmptyString
  end.

(** [s.strip()]. *)
Definition strip (s : string) : string :=
  String.rev (lstrip (String.rev (lstrip s))).

Fixpoint digits (s : string) (acc : Z) : option Z :=
  match s with
  | EmptyString => Some acc
  | String c s' =>
      match Ascii.is_nat c with
      | Some d => digits s' (10 * acc + Z.of_nat d)%Z
      | None => None
      end
  end.

Definition nonempty_digits (s : string) : option Z :=
  match s with
  | EmptyString => None
  | _ => digits s 0%Z
  end.

(** The decimal literal that [int(s)] accepts for a string: blanks around
    it, an optional sign, and at least one digit. *)
Definition int_of_str (s : string) : option Z :=
  match strip s with
  | String "+"%char ds => nonempty_digits ds
  | String "-"%char ds => Z.opp <$> nonempty_digits ds
  | ds => nonempty_digits ds
  end.

(** Truncation towards zero of a finite float, [(-1)^s * m * 2^e]. *)
Definition float_trunc (s : bool) (m : positive) (e : Z) : Z :=
  let z := Z.shiftl (Z.pos m) e in
  if s then (- z)%Z else z.

(** The builtin [int(x)] on a float: NaN is a [ValueError], an infinity an
    [OverflowError]. *)
Definition int_of_float (f : spec_float) : result Z :=
  match f with
  | S754_zero _ => Ok 0%Z
  | S754_infinity _ => Raise OverflowError
  | S754_nan => Raise ValueError
  | S754_finite s m e => Ok (float_trunc s m e)
  end.

(** The builtin [int(x)]. *)
Definition py_int (v : value) : result value :=
  match v with
  | NpFloat64 f | NpFloat32 f | PyFloat f => n ← int_of_float f; Ok (PyInt n)
  | NpInt32 n | NpInt64 n | PyInt n => Ok (PyInt n)
  | PyBool b => Ok (PyInt (if b then 1 else 0))
  | PyStr s =>
      match int_of_str s with
      | Some n => Ok (PyInt n)
      | None => Raise ValueError
      end
  | PyNone | PyList _ => Raise TypeError
  end.

(** The builtin [float(x)] on a [numpy.float64]: the same datum as a plain
    float. *)
Definition py_float_of_np (f : spec_float) : value := PyFloat f.

(** [isinstance(v, basestring)]. *)
Definition is_basestring (v : value) : bool :=
  match v with PyStr _ => true | _ => false end.

(** [isinstance(v, collections.Iterable)]. *)
Definition is_iterable (v : value) : bool :=
  match v with PyStr _ | PyList _ => true | _ => false end.

(** [sorted(l)] on strings: Python compares [str] values character by
    character by code point, and its sort is stable, as this merge sort is. *)
Definition sorted (l : list string) : list string := merge_sort String.le l.

End Py.
Export Py.

(* ===================================================================== *)
(** * [encode] *)
(* ===================================================================== *)

Module Encode.

(** A [dict] is a finite map: its keys are distinct and its iteration order
    carries no meaning.  An [OrderedDict] remembers insertion order, so it
    is an association list. *)
Abbreviation pydict := (gmap string value).
Definition ordered_dict := list (string * value).

(** [d.keys()] of a [dict], in the map's own enumeration order. *)
Definition dict_keys (obj : pydict) : list string := (map_to_list obj).*1.

(** [obj[k]]. *)
Definition getitem (obj : pydict) (k : string) : result value :=
  match obj !! k with
  | Some v => Ok v
  | None => Raise (KeyError k)
  end.

(** [result[k] = v] on an [OrderedDict]: an existing key keeps its place,
    a new key goes last. *)
Fixpoint od_setitem (d : ordered_dict) (k : string) (v : value) : ordered_dict :=
  match d with
  | [] => [(k, v)]
  | (k', v') :: d' =>
      if decide (k' = k) then (k, v) :: d' else (k', v') :: od_setitem d' k v
  end.

(** An [OrderedDict] handed to a function that expects a [dict]. *)
Definition od_as_dict (d : ordered_dict) : pydict := list_to_map d.

(** The inner function [_encode(key, value)], branch by branch. *)
Definition _encode (key : string) (v : value) : result value :=
  match v with
  | NpFloat64 f => Ok (py_float_of_np f)
  | NpInt32 n => Ok (PyInt n)
  | _ => if endswith key "_index" then py_int v else Ok v
  end.

(** The loop [for k in sorted(obj.keys()): result[k] = _encode(k, obj[k])]. *)
Fixpoint encode_loop (obj : pydict) (ks : list string) (res : ordered_dict)
  : result ordered_dict :=
  match ks with
  | [] => Ok res
  | k :: ks' =>
      v ← getitem obj k;
      v' ← _encode k v;
      encode_loop obj ks' (od_setitem res k v')
  end.

Definition encode (obj : pydict) : result ordered_dict :=
  encode_loop obj (sorted (dict_keys obj)) [].

(** One turn of the loop seen as a value: the key with its encoded value. *)
Definition encode_entry (obj : pydict) (k : string) : result (string * value) :=
  v ← getitem obj k; v' ← _encode k v; Ok (k, v').

End Encode.
Export Encode.

(* ===================================================================== *)
(** * [os.path] on POSIX path strings *)
(* ===================================================================== *)

Module PosixPath.

Definition is_slash (c : ascii) : bool := bool_decide (c = "/"%char).

Fixpoint has_slash (s : string) : bool :=
  match s with
  | EmptyString => false
  | String c s' => is_slash c || has_slash s'
  end.

(** ['/' * len(s) == s]. *)
Fixpoint all_slashes (s : string) : bool :=
  match s with
  | EmptyString => true
  | String c s' => is_slash c && all_slashes s'
  end.

(** [p[:p.rfind('/') + 1]]: the part of [p] up to its last slash. *)
Fixpoint upto_last_slash (p : string) : string :=
  match p with
  | EmptyString => EmptyString
  | String c p' =>
      if is_slash c || has_slash p' then String c (upto_last_slash p')
      else EmptyString
  end.

(** [s.rstrip('/')]. *)
Fixpoint rstrip_slash (s : string) : string :=
  match s with
  | EmptyString => EmptyString
  | String c s' =>
      match rstrip_slash s' with
      | EmptyString => if is_slash c then EmptyString else String c EmptyString
      | r => String c r
      end
  end.

(** [posixpath.dirname]. *)
Definition dirname (p : string) : string :=
  let head := upto_last_slash p in
  if bool_decide (head ≠ "") && negb (all_slashes head)
  then rstrip_slash head
  else head.

(** [posixpath.isabs]. *)
Definition isabs (p : string) : bool := startswith p "/".

(** [posixpath.join(a, b)]. *)
Definition join (a b : string) : string :=
  if startswith b "/" then b
  else if bool_decide (a = "") || endswith a "/" then a +:+ b
  else a +:+ "/" +:+ b.

(** [s.split('/')]: the fields between the slashes; there is always one. *)
Fixpoint split_slash (s : string) : list string :=
  match s with
  | EmptyString => [EmptyString]
  | String c s' =>
      if is_slash c then EmptyString :: split_slash s'
      else match split_slash s' with
           | field :: fields => String c field :: fields
           | [] => [String c EmptyString]
           end
  end.

(** ['/'.join(comps)]. *)
Fixpoint slash_join (comps : list string) : string :=
  match comps with
  | [] => ""
  | [c] => c
  | c :: cs => c +:+ "/" +:+ slash_join cs
  end.

(** The loop of [normpath] over the components; [new_comps] is kept
    reversed, so that its head is [new_comps[-1]]. *)
Fixpoint normpath_loop (initial_slashes : nat) (new_comps : list string)
    (comps : list string) : list string :=
  match comps with
  | [] => rev new_comps
  | comp :: rest =>
      if bool_decide (comp = "") || bool_decide (comp = ".")
      then normpath_loop initial_slashes new_comps rest
      else if bool_decide (comp ≠ "..")
              || (bool_decide (initial_slashes = 0) && bool_decide (new_comps = []))
              || bool_decide (head new_comps = Some "..")
      then normpath_loop initial_slashes (comp :: new_comps) rest
      else normpath_loop initial_slashes (tail new_comps) rest
  end.

Fixpoint slashes (n : nat) : string :=
  match n with
  | 0 => ""
  | S n' => String "/"%char (slashes n')
  end.

(** The count [initial_slashes] of [normpath]: POSIX keeps two leading
    slashes apart from one, and folds three or more into one. *)
Definition initial_slashes (path : string) : nat :=
  if startswith path "/"
  then if startswith path "//" && negb (startswith path "///") then 2 else 1
  else 0.

(** [posixpath.normpath]. *)
Definition normpath (path : string) : string :=
  if bool_decide (path = "") then "."
  else
    let comps :=
      normpath_loop (initial_slashes path) [] (split_slash path) in
    let path' := slashes (initial_slashes path) +:+ slash_join comps in
    if bool_decide (path' = "") then "." else path'.

(** [posixpath.abspath], with the working directory [cwd] of the process. *)
Definition abspath (cwd : string) (path : string) : string :=
  normpath (if isabs path then path else join cwd path).

End PosixPath.
Export PosixPath.


(* ===================================================================== *)
(** * [dump] *)
(* ===================================================================== *)

Module Archiver.

(** ** The state [dump] runs in

    [dump] reaches the file system through [IO_DIR] and through one path
    below it, always spelled the same way, so the store is keyed by path
    string.  Every write stamps the file with the clock and advances it;
    the trace records the system calls that changed the store. *)

Inductive entry : Type :=
| EDir
| EFile (content : string) (mtime : nat).

Inductive event : Type :=
| EvMkdir (path : string)
| EvWrite (path : string) (data : string).

Record world : Type := World {
  store : gmap string entry;   (* what each path denotes *)
  clock : nat;                 (* the time of the next write *)
  draws : nat;                 (* how many UUIDs were generated so far *)
  trace : list event;          (* the mutating calls made so far *)
}.

(** A computation that may raise and that threads the world.  The world
    keeps the effects that happened before an exception. *)
Definition io (A : Type) : Type := world → result A * world.

Global Instance io_ret : MRet io := λ A a w, (Ok a, w).
Global Instance io_bind : MBind io := λ A B k m w,
  match m w with
  | (Ok a, w') => k a w'
  | (Raise e, w') => (Raise e, w')
  end.

Definition lift {A} (r : result A) : io A := λ w, (r, w).

(** [os.path.isdir(p)] and [os.path.isfile(p)]. *)
Definition isdir (w : world) (p : string) : bool :=
  match store w !! p with Some EDir => true | _ => false end.
Definition isfile (w : world) (p : string) : bool :=
  match store w !! p with Some (EFile _ _) => true | _ => false end.

Definition os_path_isdir (p : string) : io bool := λ w, (Ok (isdir w p), w).
Definition os_path_isfile (p : string) : io bool := λ w, (Ok (isfile w p), w).

(** The directory a new entry [p] would be created in exists.  A path
    without a directory part is created in the working directory. *)
Definition parent_is_dir (w : world) (p : string) : bool :=
  bool_decide (dirname p = "") || isdir w (dirname p).

(** [os.mkdir(p)]: not recursive, and an [OSError] when [p] exists already
    or its parent is missing. *)
Definition os_mkdir (p : string) : io () := λ w,
  match store w !! p with
  | Some _ => (Raise OSError, w)
  | None =>
      if bool_decide (p ≠ "") && parent_is_dir w p
      then (Ok (), World (<[p := EDir]> (store w)) (clock w) (draws w)
                         (trace w ++ [EvMkdir p]))
      else (Raise OSError, w)
  end.

(** [with open(p, 'w') as fstream: fstream.write(data)]: the file is created
    or truncated, then holds [data].  Opening a directory, or a path whose
    parent is missing, is an [IOError]. *)
Definition write_file (p data : string) : io () := λ w,
  let written :=
    World (<[p := EFile data (clock w)]> (store w)) (S (clock w)) (draws w)
          (trace w ++ [EvWrite p data]) in
  match store w !! p with
  | Some EDir => (Raise IOError, w)
  | Some (EFile _ _) => (Ok (), written)
  | None => if parent_is_dir w p then (Ok (), written) else (Raise IOError, w)
  end.

Section Dump.

(** [cdf2cim.constants.IO_DIR]: the constant is not part of this module. *)
Variable IO_DIR : string.

(** [json.dumps(metadata, indent=4)] of the standard library: a function of
    the ordered dict, which raises on a value that JSON cannot hold. *)
Variable json_dumps : ordered_dict → result string.

(** Modelled from the spec: [cdf2cim.hashifier.hashify] is missing; the spec
    has it as a deterministic function of the canonical record and of its
    serialized text ("same canonical content, same identifier"). *)
Variable hashify : ordered_dict → string → string.

(** [unicode(uuid.uuid4())]: the [n]-th identifier that the random source
    of the process delivers. *)
Variable uuid4 : nat → string.

Definition uuid_uuid4 : io string := λ w,
  (Ok (uuid4 (draws w)), World (store w) (clock w) (S (draws w)) (trace w)).

(** [name == 'md5']. *)
Definition is_md5 (name : value) : bool :=
  match name with
  | PyStr s => bool_decide (s = "md5")
  | _ => false
  end.

Definition dump (obj : pydict) (name : value) (overwrite : bool) : io string :=
  (* Ensure IO directory exists. *)
  d ← os_path_isdir IO_DIR;
  (if negb d then os_mkdir IO_DIR else mret ());;
  (* Encode metadata as a JSON serializable ordered dictionary. *)
  metadata ← lift (encode obj);
  (* Encode metadata as a JSON string. *)
  metadata_json ← lift (json_dumps metadata);
  (* Set output file name. *)
  fname ← (if is_md5 name
           then mret (hashify metadata metadata_json)
           else uuid_uuid4);
  (* Write. *)
  let fpath := join IO_DIR (fname +:+ ".json") in
  f ← os_path_isfile fpath;
  (if negb f || overwrite then write_file fpath metadata_json else mret ());;
  mret fpath.

(** The first statement of [dump] on its own. *)
Definition ensure_io_dir : io () :=
  d ← os_path_isdir IO_DIR; if negb d then os_mkdir IO_DIR else mret ().

(** The last statements of [dump] on their own. *)
Definition write_step (fpath data : string) (overwrite : bool) : io string :=
  f ← os_path_isfile fpath;
  (if negb f || overwrite then write_file fpath data else mret ());;
  mret fpath.

End Dump.

Definition is_write (ev : event) : bool :=
  match ev with EvWrite _ _ => true | EvMkdir _ => false end.

(** How many times a trace writes a file. *)
Definition writes (evs : list event) : nat :=
  length (filter (λ ev, is_write ev = true) evs).

End Archiver.

(* ===================================================================== *)
(** * [yield_files] and [yield_cf_files] *)
(* ===================================================================== *)

Module Locator.

(** ** The directory tree that the search reads

    A tree of directories whose leaves are regular files, special files (a
    FIFO, a socket, a device) and symbolic links.  A link holds the text of
    its target, a path that is resolved from the directory the link is in;
    the target may be missing, and links may form a cycle. *)

Inductive node : Type :=
| File                                   (* a regular file *)
| Special                                (* exists, neither file nor directory *)
| Link (target : string)                 (* a symbolic link *)
| Dir (entries : list (string * node)).  (* names in [os.listdir] order *)

Record filesystem : Type := FileSystem {
  root : list (string * node);   (* the entries of "/" *)
  cwd : string;                  (* [os.getcwd()] *)
}.

Definition is_dir (n : node) : bool :=
  match n with Dir _ => true | _ => false end.

Definition is_link (n : node) : bool :=
  match n with Link _ => true | _ => false end.

(** The first entry called [name]. *)
Fixpoint child (entries : list (string * node)) (name : string) : option node :=
  match entries with
  | [] => None
  | (k, n) :: rest => if decide (k = name) then Some n else child rest name
  end.


(** How many symbolic links one resolution follows before it fails with
    [ELOOP]. *)
Definition max_links : nat := 40.

(** Path resolution as [stat] does it.  A component that names a link is
    replaced by the components of its target, which are resolved from the
    directory of the link, or from the root when the target is absolute;
    the last component is followed too.  [budget] is the number of links
    that may still be followed; the result tells what is left of it. *)
Fixpoint resolve_follow (budget : nat) (root : list (string * node))
  : list (string * node) → node → list string
    → option (nat * list (string * node) * node) :=
  fix go stack cur comps :=
    match comps with
    | [] => Some (budget, stack, cur)
    | comp :: rest =>
        match cur with
        | Dir entries =>
            if bool_decide (comp = "") || bool_decide (comp = ".")
            then go stack cur rest
            else if bool_decide (comp = "..")
            then match stack with
                 | [] => go [] cur rest
                 | (_, parent) :: stack' => go stack' parent rest
                 end
            else match child entries comp with
                 | Some (Link target) =>
                     match budget with
                     | 0 => None
                     | S budget' =>
                         if bool_decide (target = "") then None
                         else if isabs target
                         then resolve_follow budget' root [] (Dir root)
                                (split_slash target ++ rest)
                         else resolve_follow budget' root stack cur
                                (split_slash target ++ rest)
                     end
                 | Some n => go ((comp, cur) :: stack) n rest
                 | None => None
                 end
        | _ => None
        end
    end.

(** Where the path [p] leads, and what is left of the link budget.  The
    empty path leads nowhere; a relative path starts at the working
    directory. *)
Definition locate_budget (fs : filesystem) (p : string)
  : option (nat * list (string * node) * node) :=
  if bool_decide (p = "") then None
  else resolve_follow max_links (root fs) [] (Dir (root fs))
         (split_slash (if isabs p then p else join (cwd fs) p)).

Definition locate (fs : filesystem) (p : string)
  : option (list (string * node) * node) :=
  (λ r, (r.1.2, r.2)) <$> locate_budget fs p.

(** What the path [p] denotes, if anything. *)
Definition lookup (fs : filesystem) (p : string) : option node :=
  snd <$> locate fs p.


Definition os_path_exists (fs : filesystem) (p : string) : bool :=
  bool_decide (is_Some (lookup fs p)).
Definition os_path_isfile (fs : filesystem) (p : string) : bool :=
  match lookup fs p with Some File => true | _ => false end.
Definition os_path_isdir (fs : filesystem) (p : string) : bool :=
  match lookup fs p with Some (Dir _) => true | _ => false end.

(** What the entry [e] of the directory [dir] denotes: the target of a
    link, resolved from [dir], and the entry itself otherwise. *)
Definition follow (budget : nat) (root : list (string * node))
    (stack : list (string * node)) (dir : node) (e : string * node)
  : option (nat * list (string * node) * node) :=
  match e.2 with
  | Link target =>
      match budget with
      | 0 => None
      | S budget' =>
          if bool_decide (target = "") then None
          else if isabs target
          then resolve_follow budget' root [] (Dir root) (split_slash target)
          else resolve_follow budget' root stack dir (split_slash target)
      end
  | n => Some (budget, (e.1, dir) :: stack, n)
  end.

(** [os.path.isdir(os.path.join(top, name))] for the entry [e] of [top]. *)
Definition enters (budget : nat) (root : list (string * node))
    (stack : list (string * node)) (dir : node) (e : string * node) : bool :=
  match follow budget root stack dir e with
  | Some (_, _, Dir _) => true
  | _ => false
  end.

(** [os.walk(top, followlinks=True)], top down: the triple of [top], with
    the names that are directories, links to directories included, and the
    other names; then the walks of these directories in listing order.
    The directory that [top] denotes is carried along with its stack and
    with the link budget that resolving [top] leaves.  A directory entered
    through a link is not a part of the directory that lists the link;
    [jumps] counts these entrances, each of which takes one link at least
    from the budget. *)
Fixpoint walk (jumps : nat) (root : list (string * node))
  : nat → list (string * node) → string → node
    → list (string * list string * list string) :=
  fix go budget stack top n :=
    match n with
    | Dir entries =>
        (top,
         (filter (λ e, enters budget root stack n e = true) entries).*1,
         (filter (λ e, enters budget root stack n e = false) entries).*1)
        :: flat_map (λ e,
             match e.2 with
             | Link _ =>
                 match jumps, follow budget root stack n e with
                 | S jumps', Some (budget', stack', Dir entries') =>
                     walk jumps' root budget' stack' (join top e.1) (Dir entries')
                 | _, _ => []
                 end
             | _ => go budget ((e.1, n) :: stack) (join top e.1) e.2
             end) entries
    | _ => []
    end.

(** A [top] that cannot be listed yields nothing: [os.walk] swallows the
    error. *)
Definition os_walk (fs : filesystem) (top : string)
  : list (string * list string * list string) :=
  match locate_budget fs top with
  | Some (budget, stack, n) => walk (S max_links) (root fs) budget stack top n
  | None => []
  end.

(** ** [yield_files] *)

(** The elements a [for] loop sees when it iterates over [v]. *)
Definition iter (v : value) : list value :=
  match v with PyList items => items | _ => [] end.

Definition str_of (v : value) : option string :=
  match v with PyStr s => Some s | _ => None end.

(** One turn of the de-duplication loop: [criteria] is the set as mutated
    so far. *)
Definition dedupe_step (criteria : gset string) (target : string) : gset string :=
  if decide (dirname target ∈ criteria) then criteria ∖ {[target]} else criteria.

(** [for target in sorted(criteria): ...]: the sorted list is computed once,
    the set changes under the loop. *)
Definition dedupe (criteria : gset string) : gset string :=
  foldl dedupe_step criteria (sorted (elements criteria)).

(** The paths one surviving criterion contributes. *)
Definition yield_target (fs : filesystem) (target : string) : list string :=
  if os_path_isfile fs target then [abspath (cwd fs) target]
  else if os_path_isdir fs target then
    flat_map (λ '(folder, _, fnames),
                (λ fname, abspath (cwd fs) (join folder fname)) <$> fnames)
             (os_walk fs target)
  else [].

(** The generator [yield_files(criteria)], run to its end.  It can only
    raise while it validates, which is before its first [yield]: [Raise e]
    is a generator that raised without having produced a path, [Ok paths]
    one that produced [paths] and stopped.  A set is iterated in the order
    of [elements], which stands for the unspecified order of a Python
    set. *)
Definition yield_files (fs : filesystem) (criteria : value) : result (list string) :=
  (* Convert to sequence (if necessary). *)
  let criteria := if is_basestring criteria then PyList [criteria] else criteria in
  (* Exception if passed invalid pointers. *)
  if negb (is_iterable criteria) then Raise (InvalidFileSearchCriteria criteria)
  else match filter (λ i, is_basestring i = false) (iter criteria) with
  | _ :: _ => Raise (InvalidFileSearchCriteria criteria)
  | [] =>
  match filter (λ s, os_path_exists fs s = false) (omap str_of (iter criteria)) with
  | _ :: _ => Raise (InvalidFileSearchCriteria criteria)
  | [] =>
      (* De-dupe criteria. *)
      let criteria := dedupe (list_to_set (omap str_of (iter criteria))) in
      (* Determine set of absolute file pointers. *)
      Ok (flat_map (yield_target fs) (elements criteria))
  end end.

(** ** [yield_cf_files] *)

(** What the consumer of the generator and the log observe, in order. *)
Inductive cf_event (cf_file : Type) : Type :=
| Yielded (f : cf_file)        (* [yield cf_file] *)
| Closed                       (* [cf.close_one_file()] *)
| Warned (message : string).   (* [logger.log_warning(message)] *)
Global Arguments Yielded {cf_file} f.
Global Arguments Closed {cf_file}.
Global Arguments Warned {cf_file} message.

Section CfFiles.

(** The handle that [cf.read] returns. *)
Variable cf_file : Type.

(** [cf.read(fpath, ignore_read_error=False, verbose=False, aggregate=False)]
    of the cf library: a handle, or an exception. *)
Variable cf_read : string → result cf_file.

(** [except (IOError, OSError)]. *)
Definition is_io_error (e : exn) : bool :=
  match e with IOError | OSError => true | _ => false end.

(** ["Non netCDF file rejected: {}".format(fpath)]. *)
Definition rejected (fpath : string) : string :=
  "Non netCDF file rejected: " +:+ fpath.

(** The body of the loop over the paths, consumed to the end: the events in
    order, and the exception that ended the generator, if one did. *)
Fixpoint cf_loop (fpaths : list string) : list (cf_event cf_file) * option exn :=
  match fpaths with
  | [] => ([], None)
  | fpath :: rest =>
      match cf_read fpath with
      | Raise e =>
          if is_io_error e
          then let '(evs, r) := cf_loop rest in (Warned (rejected fpath) :: evs, r)
          else ([], Some e)
      | Ok f =>
          let '(evs, r) := cf_loop rest in (Yielded f :: Closed :: evs, r)
      end
  end.

Definition yield_cf_files (fs : filesystem) (targets : value)
  : list (cf_event cf_file) * option exn :=
  match yield_files fs targets with
  | Raise e => ([], Some e)
  | Ok fpaths => cf_loop fpaths
  end.

(** The records and the warnings of a run. *)
Definition records (evs : list (cf_event cf_file)) : list cf_file :=
  omap (λ ev, match ev with Yielded f => Some f | _ => None end) evs.
Definition warnings (evs : list (cf_event cf_file)) : list string :=
  omap (λ ev, match ev with Warned m => Some m | _ => None end) evs.

End CfFiles.

(** ** Vocabulary of the properties *)

(** The criteria as the collection that is validated: a lone string is
    wrapped in a list, anything else is taken as it is. *)
Definition as_sequence (criteria : value) : value :=
  if is_basestring criteria then PyList [criteria] else criteria.

(** The three kinds of invalid search criteria: not an iterable, an element
    that is not a string, a path that does not exist.  A lone string is
    judged as the list that holds it. *)
Definition invalid_criteria (fs : filesystem) (criteria : value) : Prop :=
  is_iterable (as_sequence criteria) = false
  ∨ (∃ i, i ∈ iter (as_sequence criteria) ∧ is_basestring i = false)
  ∨ (∃ s, PyStr s ∈ iter (as_sequence criteria) ∧ os_path_exists fs s = false).


(** A name that a directory entry can bear. *)
Definition proper_name (s : string) : bool :=
  negb (has_slash s) && negb (bool_decide (s = ""))
  && negb (bool_decide (s = ".")) && negb (bool_decide (s = "..")).

(** Every directory lists proper names, each once, and no link has an
    empty target. *)
Fixpoint wf_node (n : node) : bool :=
  match n with
  | Dir entries =>
      bool_decide (NoDup entries.*1)
      && forallb (λ e, proper_name e.1 && wf_node e.2) entries
  | Link target => negb (bool_decide (target = ""))
  | _ => true
  end.






(** ** Vocabulary of the proofs *)





(** Induction on a tree, with the hypothesis for every entry of a
    directory. *)
Fixpoint node_ind' (P : node → Prop) (HF : P File) (HS : P Special)
    (HL : ∀ target, P (Link target))
    (HD : ∀ es, Forall (λ e, P e.2) es → P (Dir es)) (n : node) : P n :=
  match n with
  | File => HF
  | Special => HS
  | Link target => HL target
  | Dir es =>
      HD es ((fix go (es : list (string * node)) : Forall (λ e, P e.2) es :=
                match es with
                | [] => List.Forall_nil _
                | e :: es' =>
                    List.Forall_cons _ e es' (node_ind' P HF HS HL HD e.2) (go es')
                end) es)
  end.








End Locator.

(* ===================================================================== *)
(** * Sample inputs *)
(* ===================================================================== *)

Module Samples.
Import Archiver Locator.

(** The floats 3.0 and 3.5 as binary64 data. *)
Definition three : spec_float := S754_finite false 6755399441055744 (-51).
Definition three_and_a_half : spec_float :=
  S754_finite false 7881299347898368 (-51).

Definition index_as_float : gmap string value :=
  {[ "foo_index" := PyFloat three ]}.
Definition index_as_np_float : gmap string value :=
  {[ "foo_index" := NpFloat64 three_and_a_half ]}.
Definition mixed_record : gmap string value :=
  {[ "realization_index" := PyStr "7"; "branch_time" := NpFloat64 three;
     "activity" := PyStr "CMIP"; "forcing_index" := NpInt32 4 ]}.
Definition bad_index_none : gmap string value := {[ "a_index" := PyNone ]}.
Definition bad_index_text : gmap string value := {[ "a_index" := PyStr "abc" ]}.

(** Stand-ins for the collaborators of [dump], for the examples only: a
    one-line serializer of integers, strings, booleans and [None], a
    fingerprint that is a function of the text, and a counter for the
    random source. *)
Definition quoted (s : string) : string :=
  String (ascii_of_nat 34) (s +:+ String (ascii_of_nat 34) "").

Definition sample_scalar (v : value) : result string :=
  match v with
  | PyInt n => Ok (pretty n)
  | PyStr s => Ok (quoted s)
  | PyBool b => Ok (if b then "true" else "false")
  | PyNone => Ok "null"
  | _ => Raise TypeError
  end.

Definition sample_dumps (md : ordered_dict) : result string :=
  items ← mapM (λ kv, t ← sample_scalar kv.2; Ok (quoted kv.1 +:+ ": " +:+ t)) md;
  Ok ("{" +:+ String.concat ", " items +:+ "}").

Definition sample_hashify (md : ordered_dict) (js : string) : string :=
  "h" +:+ pretty (String.length js).

Definition sample_uuid4 (n : nat) : string := "u" +:+ pretty n.

Definition sample_record : gmap string value :=
  {[ "realization_index" := PyStr "7"; "activity" := PyStr "CMIP" ]}.

(** The canonical form of [sample_record] and its text. *)
Definition sample_canonical : ordered_dict :=
  [("activity", PyStr "CMIP"); ("realization_index", PyInt 7)].
Definition sample_text : string :=
  match sample_dumps sample_canonical with
  | Ok text => text
  | Raise _ => ""
  end.

(** An output directory that exists and is empty, one that holds an old
    artifact of [sample_record], and one that holds its current text. *)
Definition fresh_world : world :=
  World {[ "/" := EDir; "/out" := EDir ]} 10 0 [].
Definition stale_world : world :=
  World {[ "/" := EDir; "/out" := EDir; "/out/h44.json" := EFile "old" 3 ]} 10 0 [].
Definition current_world : world :=
  World {[ "/" := EDir; "/out" := EDir; "/out/h44.json" := EFile sample_text 3 ]}
        10 0 [].

(** A root directory that holds two files. *)
Definition fs_root : filesystem :=
  FileSystem [("a.nc", File); ("b.nc", File)] "/".



(** The example of the specification: /data/run1 with a.nc, b.nc and
    c.txt, which the directory lists between the two others. *)
Definition fs_run1 : filesystem :=
  FileSystem [("data", Dir [("run1", Dir [("a.nc", File); ("c.txt", File);
                                            ("b.nc", File)])])]
    "/".

(** A reader that accepts the names in .nc and fails on the others with
    an [IOError]; the handle is the path. *)
Definition nc_reader (fpath : string) : result string :=
  if endswith fpath ".nc" then Ok fpath else Raise IOError.

End Samples.

(* ===================================================================== *)
(** * The path functions on examples *)
(* ===================================================================== *)

Module PathTests.
Example dirname_file : dirname "/data/run1/a.nc" = "/data/run1".
Proof. reflexivity. Qed.
Example dirname_root : dirname "/" = "/".
Proof. reflexivity. Qed.
Example dirname_top : dirname "/a" = "/".
Proof. reflexivity. Qed.
Example dirname_bare : dirname "a.nc" = "".
Proof. reflexivity. Qed.
Example dirname_trailing : dirname "/data/run1/" = "/data/run1".
Proof. reflexivity. Qed.
Example dirname_double : dirname "/d//f.nc" = "/d".
Proof. reflexivity. Qed.
Example join_plain : join "/data" "a.nc" = "/data/a.nc".
Proof. reflexivity. Qed.
Example join_trailing : join "/data/" "a.nc" = "/data/a.nc".
Proof. reflexivity. Qed.
Example join_abs : join "/data" "/etc" = "/etc".
Proof. reflexivity. Qed.
Example join_root : join "/" "a.nc" = "/a.nc".
Proof. reflexivity. Qed.
Example split_abs : split_slash "/a//b/" = [""; "a"; ""; "b"; ""].
Proof. reflexivity. Qed.
Example normpath_dots : normpath "/a/./b/../c//d/" = "/a/c/d".
Proof. reflexivity. Qed.
Example normpath_two : normpath "//a" = "//a".
Proof. reflexivity. Qed.
Example normpath_three : normpath "///a" = "/a".
Proof. reflexivity. Qed.
Example normpath_rel : normpath "../a/.." = "..".
Proof. reflexivity. Qed.
Example normpath_above_root : normpath "/.." = "/".
Proof. reflexivity. Qed.
Example abspath_rel : abspath "/home/u" "x/../a.nc" = "/home/u/a.nc".
Proof. reflexivity. Qed.
End PathTests.

(* ===================================================================== *)
(** * Properties of [encode] *)
(* ===================================================================== *)

Module EncodeFacts.
Import Samples.

Lemma od_setitem_fresh (d : ordered_dict) k v :
  k ∉ d.*1 → od_setitem d k v = d ++ [(k, v)].
Proof.
  induction d as [|[k' v'] d IH]; simpl; [done|].
  intros Hk. apply not_elem_of_cons in Hk as [Hne Hk].
  rewrite decide_False by done. by rewrite IH.
Qed.

Lemma encode_entry_key obj k kv : encode_entry obj k = Ok kv → kv.1 = k.
Proof.
  unfold encode_entry, getitem. destruct (obj !! k); simpl; [|done].
  destruct (_encode k v); simpl; [|done]. by intros [= <-].
Qed.

Lemma mapM_encode_entry_keys obj ks r :
  mapM (encode_entry obj) ks = Ok r → r.*1 = ks.
Proof.
  revert r. induction ks as [|k ks IH]; intros r; simpl.
  - by intros [= <-].
  - destruct (encode_entry obj k) as [kv|] eqn:Hk; simpl; [|done].
    destruct (mapM (encode_entry obj) ks) as [r'|] eqn:Hr; simpl; [|done].
    intros [= <-]. simpl. f_equal; [by eapply encode_entry_key|by apply IH].
Qed.

Lemma encode_loop_cons obj k ks res :
  encode_loop obj (k :: ks) res
  = (kv ← encode_entry obj k; encode_loop obj ks (od_setitem res kv.1 kv.2)).
Proof.
  simpl. unfold encode_entry.
  destruct (getitem obj k) as [v|]; simpl; [|done].
  by destruct (_encode k v).
Qed.

Lemma encode_loop_mapM obj ks res :
  NoDup ks → (∀ k, k ∈ ks → k ∉ res.*1) →
  encode_loop obj ks res = (r ← mapM (encode_entry obj) ks; Ok (res ++ r)).
Proof.
  revert res. induction ks as [|k ks IH]; intros res Hnd Hfresh.
  - simpl. by rewrite app_nil_r.
  - apply NoDup_cons in Hnd as [Hk Hnd].
    rewrite encode_loop_cons. cbn [mapM].
    destruct (encode_entry obj k) as [[k' v']|] eqn:Hkv; simpl; [|done].
    apply encode_entry_key in Hkv as Hk'. simpl in Hk'. subst k'.
    rewrite od_setitem_fresh by (apply Hfresh; left).
    rewrite IH; [|done|].
    + destruct (mapM (encode_entry obj) ks); simpl; [|done].
      by rewrite <-app_assoc.
    + intros k' Hk'.
      rewrite fmap_app, elem_of_app. simpl. intros [?|Heq%list_elem_of_singleton].
      * by eapply Hfresh; [right|].
      * by subst.
Qed.

Lemma sorted_Permutation l : sorted l ≡ₚ l.
Proof. apply merge_sort_Permutation. Qed.

Lemma sorted_Sorted l : Sorted String.le (sorted l).
Proof. apply (Sorted_merge_sort String.le). Qed.

Lemma NoDup_dict_keys (obj : gmap string value) : NoDup (dict_keys obj).
Proof. apply NoDup_fst_map_to_list. Qed.

Lemma NoDup_sorted_keys (obj : gmap string value) : NoDup (sorted (dict_keys obj)).
Proof. rewrite sorted_Permutation. apply NoDup_dict_keys. Qed.

(** [encode] is the entry-wise encoding of the keys in sorted order. *)
Lemma encode_mapM obj :
  encode obj = mapM (encode_entry obj) (sorted (dict_keys obj)).
Proof.
  unfold encode. rewrite encode_loop_mapM.
  - by destruct (mapM _ _).
  - apply NoDup_sorted_keys.
  - intros ? _. simpl. apply not_elem_of_nil.
Qed.


Lemma mapM_Ok_Forall2 {A B} (f : A → result B) l r :
  mapM f l = Ok r ↔ Forall2 (λ a b, f a = Ok b) l r.
Proof.
  revert r. induction l as [|a l IH]; intros r; simpl.
  - split; [by intros [= <-]|by intros ->%Forall2_nil_inv_l].
  - destruct (f a) as [b|] eqn:Hb; simpl.
    + destruct (mapM f l) as [r'|] eqn:Hr; simpl.
      * split.
        -- intros [= <-]. constructor; [done|]. by apply IH.
        -- intros (b' & r'' & Hb' & Hr'' & ->)%Forall2_cons_inv_l.
           rewrite Hb in Hb'. injection Hb' as <-.
           apply IH in Hr''. by injection Hr'' as <-.
      * split; [done|].
        intros (b' & r'' & _ & Hr'' & ->)%Forall2_cons_inv_l.
        by apply IH in Hr''.
    + split; [done|].
      intros (b' & r'' & Hb' & _ & ->)%Forall2_cons_inv_l. by rewrite Hb in Hb'.
Qed.

Lemma encode_keys obj r : encode obj = Ok r → r.*1 = sorted (dict_keys obj).
Proof. rewrite encode_mapM. apply mapM_encode_entry_keys. Qed.

Lemma encode_NoDup obj r : encode obj = Ok r → NoDup r.*1.
Proof. intros ->%encode_keys. apply NoDup_sorted_keys. Qed.

Lemma elem_of_dict_keys (obj : gmap string value) k :
  k ∈ dict_keys obj ↔ is_Some (obj !! k).
Proof.
  unfold dict_keys. rewrite list_elem_of_fmap. split.
  - intros [[k' v] [-> Hkv]]. apply elem_of_map_to_list in Hkv. by exists v.
  - intros [v Hv]. exists (k, v). split; [done|]. by apply elem_of_map_to_list.
Qed.

(** What a successful [encode] holds at a key of the input. *)
Lemma encode_lookup obj r k v :
  encode obj = Ok r → obj !! k = Some v →
  ∃ v', _encode k v = Ok v' ∧ od_as_dict r !! k = Some v'.
Proof.
  intros Henc Hk.
  pose proof (encode_NoDup _ _ Henc) as Hnd.
  rewrite encode_mapM in Henc. apply mapM_Ok_Forall2 in Henc.
  assert (k ∈ sorted (dict_keys obj)) as Hin.
  { rewrite sorted_Permutation. apply elem_of_dict_keys. by exists v. }
  apply list_elem_of_lookup in Hin as [i Hi].
  destruct (Forall2_lookup_l _ _ _ _ _ Henc Hi) as (kv & Hkv & Hentry).
  unfold encode_entry, getitem in Hentry. rewrite Hk in Hentry. simpl in Hentry.
  destruct (_encode k v) as [v'|]; simpl in Hentry; [|done].
  injection Hentry as <-. exists v'. split; [done|].
  apply elem_of_list_to_map_1; [done|]. by eapply list_elem_of_lookup_2.
Qed.

Lemma py_int_is_int v v' : py_int v = Ok v' → ∃ n, v' = PyInt n.
Proof.
  destruct v as [f|n|f|n|f|n|b|s| |l]; simpl; try done;
    try (intros [= <-]; by eexists);
    try (destruct (int_of_float f); simpl; [|done]; intros [= <-]; by eexists).
  destruct (int_of_str s); [|done]. intros [= <-]. by eexists.
Qed.

(** A value that [_encode] produced is left alone by [_encode], unless it
    came from a [numpy.float64] under an index key. *)
Lemma _encode_stable k v v' :
  (∀ f, v = NpFloat64 f → endswith k "_index" = false) →
  _encode k v = Ok v' → _encode k v' = Ok v'.
Proof.
  intros Hnp. unfold _encode.
  destruct (endswith k "_index") eqn:Hk.
  - destruct v as [f|n|f|n|f|n|b|s| |l];
      try (intros Hi; destruct (py_int_is_int _ _ Hi) as [z ->]; by rewrite ?Hk).
    + by specialize (Hnp f eq_refl).
    + by intros [= <-].
  - destruct v as [f|n|f|n|f|n|b|s| |l]; intros [= <-]; by rewrite ?Hk.
Qed.

(** The type rules come first: a [numpy.float64] stays a float whatever its
    key. *)
Lemma encode_np_float_entry (obj : gmap string value) k f r :
  obj !! k = Some (NpFloat64 f) → encode obj = Ok r →
  od_as_dict r !! k = Some (PyFloat f).
Proof.
  intros Hk Henc. destruct (encode_lookup _ _ _ _ Henc Hk) as (v' & Hv' & Hr).
  simpl in Hv'. by injection Hv' as <-.
Qed.

(** C5, as amended: for every entry whose key ends with [_index] and whose
    value is not a [numpy.float64], a successful canonicalize holds the plain
    integer [int(value)] at that key: a [numpy.int32] by the type rule, any
    other value by the key-suffix rule.  The type rules are tried first, so
    the key suffix does not override them. *)
Theorem encode_index_entry (obj : gmap string value) k v r :
  obj !! k = Some v → endswith k "_index" = true → (∀ f, v ≠ NpFloat64 f) →
  encode obj = Ok r →
  ∃ n, py_int v = Ok (PyInt n) ∧ od_as_dict r !! k = Some (PyInt n).
Proof.
  intros Hk Hsuf Hnp Henc.
  destruct (encode_lookup _ _ _ _ Henc Hk) as (v' & Hv' & Hr).
  assert (py_int v = Ok v') as Hint.
  { unfold _encode in Hv'. rewrite Hsuf in Hv'.
    destruct v; try done. by destruct (Hnp f). }
  destruct (py_int_is_int _ _ Hint) as [n ->]. by exists n.
Qed.

Lemma sorted_of_sorted l k :
  Sorted String.le k → l ≡ₚ k → sorted l = k.
Proof.
  intros Hk Hp. apply (Sorted_unique String.le); [apply sorted_Sorted|done|].
  by rewrite sorted_Permutation.
Qed.

(** C2, as amended: on a record in which no key ending with [_index] holds a
    [numpy.float64], canonicalize is idempotent: canonicalizing a canonical
    record gives the same record back, with the same key order and the same
    type and value at every key. *)
Theorem encode_idempotent (obj : gmap string value) r :
  (∀ k f, obj !! k = Some (NpFloat64 f) → endswith k "_index" = false) →
  encode obj = Ok r → encode (od_as_dict r) = Ok r.
Proof.
  intros Hnp Henc.
  pose proof (encode_NoDup _ _ Henc) as Hnd.
  pose proof (encode_keys _ _ Henc) as Hkeys.
  rewrite encode_mapM.
  assert (sorted (dict_keys (od_as_dict r)) = r.*1) as ->.
  { apply sorted_of_sorted; [rewrite Hkeys; apply sorted_Sorted|].
    unfold dict_keys, od_as_dict. by rewrite map_to_list_to_map. }
  rewrite encode_mapM, <-Hkeys in Henc.
  apply mapM_Ok_Forall2 in Henc. apply mapM_Ok_Forall2.
  apply Forall2_same_length_lookup. split; [by rewrite length_fmap|].
  intros i k kv Hi Hkv.
  pose proof (Forall2_lookup_lr _ _ _ _ _ _ Henc Hi Hkv) as Hentry.
  unfold encode_entry, getitem in Hentry |- *.
  destruct (obj !! k) as [v|] eqn:Hk; simpl in Hentry; [|done].
  destruct (_encode k v) as [v'|] eqn:Hv'; simpl in Hentry; [|done].
  injection Hentry as <-.
  assert (od_as_dict r !! k = Some v') as ->.
  { apply elem_of_list_to_map_1; [done|]. by eapply list_elem_of_lookup_2. }
  simpl. erewrite _encode_stable; [done| |done].
  intros f ->. by eapply Hnp.
Qed.

(** A key [foo_index] with the plain float 3.0 becomes the integer 3. *)
Example encode_float_index_three :
  encode index_as_float = Ok [("foo_index", PyInt 3)].
Proof. reflexivity. Qed.

Lemma encode_index_entry_witness :
  index_as_float !! "foo_index" = Some (PyFloat three)
  ∧ endswith "foo_index" "_index" = true
  ∧ (∀ f, PyFloat three ≠ NpFloat64 f)
  ∧ encode index_as_float = Ok [("foo_index", PyInt 3)]
  ∧ ∃ n, py_int (PyFloat three) = Ok (PyInt n)
         ∧ od_as_dict [("foo_index", PyInt 3)] !! "foo_index" = Some (PyInt n).
Proof.
  split_and!; [reflexivity|reflexivity|discriminate|reflexivity|].
  apply (encode_index_entry index_as_float "foo_index" (PyFloat three));
    [reflexivity|reflexivity|discriminate|reflexivity].
Defined.

(** C5, as stated, fails: under the key [foo_index] a [numpy.float64] 3.5
    comes out as the float 3.5, not as an integer. *)
Lemma index_key_np_float_stays_float :
  index_as_np_float !! "foo_index" = Some (NpFloat64 three_and_a_half)
  ∧ endswith "foo_index" "_index" = true
  ∧ ∃ r, encode index_as_np_float = Ok r
         ∧ od_as_dict r !! "foo_index" = Some (PyFloat three_and_a_half)
         ∧ ∀ n, od_as_dict r !! "foo_index" ≠ Some (PyInt n).
Proof.
  split_and!; [reflexivity..|].
  exists [("foo_index", PyFloat three_and_a_half)].
  split_and!; [reflexivity..|]. intros n. vm_compute. discriminate.
Qed.

(** C2, as stated, fails: the first pass turns the [numpy.float64] 3.5 under
    [foo_index] into the float 3.5, the second pass turns that float into
    the integer 3. *)
Lemma encode_twice_differs :
  encode index_as_np_float = Ok [("foo_index", PyFloat three_and_a_half)]
  ∧ encode (od_as_dict [("foo_index", PyFloat three_and_a_half)])
    = Ok [("foo_index", PyInt 3)]
  ∧ [("foo_index", PyFloat three_and_a_half)] ≠ [("foo_index", PyInt 3)].
Proof. split_and!; [reflexivity..|discriminate]. Qed.

Lemma encode_idempotent_witness :
  (∀ k f, mixed_record !! k = Some (NpFloat64 f) → endswith k "_index" = false)
  ∧ encode mixed_record
    = Ok [("activity", PyStr "CMIP"); ("branch_time", PyFloat three);
          ("forcing_index", PyInt 4); ("realization_index", PyInt 7)]
  ∧ encode (od_as_dict
      [("activity", PyStr "CMIP"); ("branch_time", PyFloat three);
       ("forcing_index", PyInt 4); ("realization_index", PyInt 7)])
    = Ok [("activity", PyStr "CMIP"); ("branch_time", PyFloat three);
          ("forcing_index", PyInt 4); ("realization_index", PyInt 7)].
Proof.
  assert (∀ k f, mixed_record !! k = Some (NpFloat64 f)
                 → endswith k "_index" = false) as Hnp.
  { intros k f. unfold mixed_record.
    rewrite !lookup_insert, lookup_singleton.
    repeat case_decide; subst; try discriminate; reflexivity. }
  split_and!; [exact Hnp|reflexivity|].
  apply (encode_idempotent mixed_record); [exact Hnp|reflexivity].
Defined.

End EncodeFacts.

(* ===================================================================== *)
(** * Properties of [dump] *)
(* ===================================================================== *)

Module ArchiverFacts.
Import Archiver Samples.

Lemma writes_app evs1 evs2 : writes (evs1 ++ evs2) = writes evs1 + writes evs2.
Proof. unfold writes. by rewrite filter_app, length_app. Qed.

Lemma no_event (evs : list event) : ∃ evs', evs = evs ++ evs' ∧ writes evs' = 0.
Proof. exists []. by rewrite app_nil_r. Qed.

Section Facts.

Variable IO_DIR : string.
Variable json_dumps : ordered_dict → result string.
Variable hashify : ordered_dict → string → string.
Variable uuid4 : nat → string.

Abbreviation dump := (dump IO_DIR json_dumps hashify uuid4).
Abbreviation ensure_io_dir := (ensure_io_dir IO_DIR).

Lemma dump_unfold obj name overwrite w :
  dump obj name overwrite w =
  match ensure_io_dir w with
  | (Raise e, w0) => (Raise e, w0)
  | (Ok _, w0) =>
      match encode obj with
      | Raise e => (Raise e, w0)
      | Ok md =>
          match json_dumps md with
          | Raise e => (Raise e, w0)
          | Ok js =>
              if is_md5 name
              then write_step (join IO_DIR (hashify md js +:+ ".json")) js overwrite w0
              else write_step (join IO_DIR (uuid4 (draws w0) +:+ ".json")) js overwrite
                     (World (store w0) (clock w0) (S (draws w0)) (trace w0))
          end
      end
  end.
Proof.
  unfold Archiver.dump, ensure_io_dir, write_step, mbind, io_bind, os_path_isdir,
    os_path_isfile, lift, mret, io_ret, uuid_uuid4.
  destruct (negb (isdir w IO_DIR)).
  - destruct (os_mkdir IO_DIR w) as [[[]|e] w0]; [|done].
    destruct (encode obj) as [md|]; [|done].
    destruct (json_dumps md) as [js|]; [|done].
    by destruct (is_md5 name).
  - destruct (encode obj) as [md|]; [|done].
    destruct (json_dumps md) as [js|]; [|done].
    by destruct (is_md5 name).
Qed.

Lemma ensure_io_dir_present w :
  isdir w IO_DIR = true → ensure_io_dir w = (Ok (), w).
Proof.
  intros H. unfold ensure_io_dir, mbind, io_bind, os_path_isdir. by rewrite H.
Qed.

Lemma ensure_io_dir_Ok w w0 :
  ensure_io_dir w = (Ok (), w0) →
  isdir w0 IO_DIR = true
  ∧ (∃ evs, trace w0 = trace w ++ evs ∧ writes evs = 0)
  ∧ (∀ p c t, store w0 !! p = Some (EFile c t) ↔ store w !! p = Some (EFile c t)).
Proof.
  unfold ensure_io_dir, mbind, io_bind, os_path_isdir, mret, io_ret.
  destruct (isdir w IO_DIR) eqn:Hd; simpl.
  - intros ?; simplify_eq. split_and!; [done|apply no_event|done].
  - unfold os_mkdir. destruct (store w !! IO_DIR) eqn:Hs; [done|].
    destruct (_ && _); [|done]. intros ?; simplify_eq. simpl. split_and!.
    + unfold isdir. simpl. by rewrite lookup_insert_eq.
    + by exists [EvMkdir IO_DIR].
    + intros p c t. destruct (decide (p = IO_DIR)) as [->|].
      * rewrite lookup_insert_eq, Hs. naive_solver.
      * by rewrite lookup_insert_ne.
Qed.

Lemma ensure_io_dir_Raise w e w0 :
  ensure_io_dir w = (Raise e, w0) → w0 = w.
Proof.
  unfold ensure_io_dir, mbind, io_bind, os_path_isdir, mret, io_ret.
  destruct (isdir w IO_DIR) eqn:Hd; simpl; [done|].
  unfold os_mkdir. destruct (store w !! IO_DIR) eqn:Hs; [by intros [= _ <-]|].
  destruct (_ && _); [done|]. by intros [= _ <-].
Qed.

(** A write step without overwrite that ran once has nothing left to do. *)
Lemma write_step_twice fpath data w r w1 :
  isdir w IO_DIR = true →
  write_step fpath data false w = (r, w1) →
  isdir w1 IO_DIR = true ∧ write_step fpath data false w1 = (r, w1)
  ∧ ∃ evs, trace w1 = trace w ++ evs ∧ writes evs ≤ 1.
Proof.
  intros Hd. unfold write_step, mbind, io_bind, os_path_isfile, mret, io_ret.
  destruct (isfile w fpath) eqn:Hf; simpl.
  - intros ?; simplify_eq. rewrite Hf. simpl. split_and!; [done..|].
    exists []. rewrite app_nil_r. split; [done|cbv; lia].
  - unfold write_file, isfile in *.
    destruct (store w !! fpath) as [[|c t]|] eqn:Hs; [| done |].
    + intros ?; simplify_eq. rewrite Hs. simpl. split_and!; [done| by rewrite Hs |].
      exists []. rewrite app_nil_r. split; [done|cbv; lia].
    + destruct (parent_is_dir w fpath) eqn:Hp.
      * intros ?; simplify_eq. simpl. rewrite lookup_insert_eq. simpl.
        split_and!; [|done|exists [EvWrite fpath data]; split; [done|cbv; lia]].
        unfold isdir in *. simpl. rewrite lookup_insert_ne; [done|].
        intros ->. by rewrite Hs in Hd.
      * intros ?; simplify_eq. rewrite Hs. simpl. rewrite Hs, Hp. split_and!; [done..|].
        exists []. rewrite app_nil_r. split; [done|cbv; lia].
Qed.


(** C1: persist called twice with the same record, fingerprint naming and
    overwrite=false: the second call returns what the first returned and
    leaves the world exactly as the first left it (every file with its
    content and its modification time, and no further write in the trace),
    and the first call writes the artifact at most once. *)
Theorem dump_md5_twice (obj : gmap string value) (w : world) :
  let first := dump obj (PyStr "md5") false w in
  dump obj (PyStr "md5") false first.2 = first
  ∧ ∃ evs, trace first.2 = trace w ++ evs ∧ writes evs ≤ 1.
Proof.
  simpl. rewrite (dump_unfold obj _ _ w).
  destruct (ensure_io_dir w) as [[[]|e] w0] eqn:He.
  - destruct (ensure_io_dir_Ok _ _ He) as (Hd & (evs0 & Ht0 & Hw0) & _).
    destruct (encode obj) as [md|e] eqn:Henc.
    + destruct (json_dumps md) as [js|e] eqn:Hjs.
      * simpl.
        destruct (write_step (join IO_DIR (hashify md js +:+ ".json")) js false w0)
          as [r w1] eqn:Hw.
        destruct (write_step_twice _ _ _ _ _ Hd Hw) as (Hd1 & Hw1 & evs1 & Ht1 & Hle).
        simpl. split.
        -- rewrite dump_unfold, (ensure_io_dir_present _ Hd1), Henc, Hjs. done.
        -- exists (evs0 ++ evs1). rewrite Ht1, Ht0, writes_app, app_assoc. split; [done|lia].
      * simpl. split.
        -- by rewrite dump_unfold, (ensure_io_dir_present _ Hd), Henc, Hjs.
        -- exists evs0. split; [done|lia].
    + simpl. split.
      * by rewrite dump_unfold, (ensure_io_dir_present _ Hd), Henc.
      * exists evs0. split; [done|lia].
  - apply ensure_io_dir_Raise in He as Heq. subst w0. simpl. split.
    + by rewrite dump_unfold, He.
    + exists []. rewrite app_nil_r. split; [done|cbv; lia].
Qed.

(** C7: with overwrite=true and an artifact already at the fingerprint
    path, persist writes the file again, whatever its content was, the
    serialized text itself included: the file holds the text with a new
    modification time and the trace has one more write. *)
Theorem dump_overwrite_rewrites (obj : gmap string value) (w : world) md js c0 t0 :
  encode obj = Ok md → json_dumps md = Ok js →
  isdir w IO_DIR = true →
  store w !! join IO_DIR (hashify md js +:+ ".json") = Some (EFile c0 t0) →
  dump obj (PyStr "md5") true w =
    (Ok (join IO_DIR (hashify md js +:+ ".json")),
     World (<[join IO_DIR (hashify md js +:+ ".json") := EFile js (clock w)]> (store w))
           (S (clock w)) (draws w)
           (trace w ++ [EvWrite (join IO_DIR (hashify md js +:+ ".json")) js])).
Proof.
  intros Henc Hjs Hd Hf.
  rewrite dump_unfold, (ensure_io_dir_present _ Hd), Henc, Hjs. simpl.
  unfold write_step, mbind, io_bind, os_path_isfile, mret, io_ret, isfile, write_file.
  by rewrite Hf; simpl; rewrite Hf.
Qed.

Lemma is_md5_false name : name ≠ PyStr "md5" → is_md5 name = false.
Proof.
  destruct name; simpl; try done. intros Hne.
  apply bool_decide_eq_false. by intros ->.
Qed.

(** C9: every naming mode other than 'md5' behaves as 'uuid' does: the mode
    is not validated, the identifier is the next one of the random source,
    and the artifact is written under it without an error. *)
Theorem dump_other_mode_draws_uuid (obj : gmap string value) (name : value)
    (overwrite : bool) (w : world) md js :
  name ≠ PyStr "md5" →
  encode obj = Ok md → json_dumps md = Ok js →
  isdir w IO_DIR = true →
  store w !! join IO_DIR (uuid4 (draws w) +:+ ".json") = None →
  parent_is_dir w (join IO_DIR (uuid4 (draws w) +:+ ".json")) = true →
  dump obj name overwrite w = dump obj (PyStr "uuid") overwrite w
  ∧ dump obj name overwrite w =
      (Ok (join IO_DIR (uuid4 (draws w) +:+ ".json")),
       World (<[join IO_DIR (uuid4 (draws w) +:+ ".json") := EFile js (clock w)]> (store w))
             (S (clock w)) (S (draws w))
             (trace w ++ [EvWrite (join IO_DIR (uuid4 (draws w) +:+ ".json")) js])).
Proof.
  intros Hname Henc Hjs Hd Hf Hp.
  rewrite !dump_unfold, (ensure_io_dir_present _ Hd), Henc, Hjs.
  rewrite (is_md5_false _ Hname). simpl. split; [done|].
  unfold write_step, mbind, io_bind, os_path_isfile, mret, io_ret, isfile, write_file.
  simpl. rewrite Hf. simpl. rewrite Hf. unfold parent_is_dir, isdir in *. simpl.
  by rewrite Hp.
Qed.

(** No validation of the mode, whatever the state. *)
Lemma dump_mode_not_validated (obj : gmap string value) name overwrite w :
  name ≠ PyStr "md5" →
  dump obj name overwrite w = dump obj (PyStr "uuid") overwrite w.
Proof.
  intros Hname. rewrite !dump_unfold. by rewrite (is_md5_false _ Hname).
Qed.

(** When [encode] raises, [dump] raises and has written nothing. *)
Lemma dump_encode_raises (obj : gmap string value) e name overwrite w :
  encode obj = Raise e →
  ∃ e' w', dump obj name overwrite w = (Raise e', w')
    ∧ (∃ evs, trace w' = trace w ++ evs ∧ writes evs = 0)
    ∧ (∀ p c t, store w' !! p = Some (EFile c t) ↔ store w !! p = Some (EFile c t)).
Proof.
  intros Henc. rewrite dump_unfold.
  destruct (ensure_io_dir w) as [[[]|e0] w0] eqn:He.
  - rewrite Henc. exists e, w0. split; [done|].
    by destruct (ensure_io_dir_Ok _ _ He) as (_ & ? & ?).
  - apply ensure_io_dir_Raise in He as ->. exists e0, w.
    split_and!; [done|apply no_event|done].
Qed.

(** C10: canonicalize is not total.  On the record whose key [a_index] holds
    [None] it raises a [TypeError], on the one that holds the text abc a
    [ValueError]; persist then raises too, whatever the serializer, without
    a write: the trace gains no write and every file is as it was. *)
Theorem encode_not_total (name : value) (overwrite : bool) (w : world) :
  encode bad_index_none = Raise TypeError
  ∧ encode bad_index_text = Raise ValueError
  ∧ ∃ e w', dump bad_index_none name overwrite w = (Raise e, w')
      ∧ (∃ evs, trace w' = trace w ++ evs ∧ writes evs = 0)
      ∧ (∀ p c t, store w' !! p = Some (EFile c t) ↔ store w !! p = Some (EFile c t)).
Proof.
  split_and!; [by vm_compute..|].
  by apply (dump_encode_raises _ TypeError).
Qed.

End Facts.

Abbreviation sample_dump := (dump "/out" sample_dumps sample_hashify sample_uuid4).

(** The first call writes the artifact once, the second call writes
    nothing and returns the same path. *)
Example dump_twice_sample :
  let first := sample_dump sample_record (PyStr "md5") false fresh_world in
  first.1 = Ok "/out/h44.json"
  ∧ trace first.2 = [EvWrite "/out/h44.json" sample_text]
  ∧ store first.2 !! "/out/h44.json" = Some (EFile sample_text 10)
  ∧ sample_dump sample_record (PyStr "md5") false first.2 = first.
Proof. vm_compute. split_and!; reflexivity. Qed.

(** Without overwrite an artifact that is there is left as it is, even
    when its content is not the current text. *)
Example dump_keeps_stale_sample :
  sample_dump sample_record (PyStr "md5") false stale_world
  = (Ok "/out/h44.json", stale_world).
Proof. reflexivity. Qed.

(** With overwrite the same text is written again: the modification time
    moves from 3 to 10. *)
Example dump_overwrite_same_content :
  let w := (sample_dump sample_record (PyStr "md5") true current_world).2 in
  store current_world !! "/out/h44.json" = Some (EFile sample_text 3)
  ∧ store w !! "/out/h44.json" = Some (EFile sample_text 10)
  ∧ trace w = [EvWrite "/out/h44.json" sample_text].
Proof. vm_compute. split_and!; reflexivity. Qed.

Lemma dump_overwrite_rewrites_witness :
  encode sample_record = Ok sample_canonical
  ∧ sample_dumps sample_canonical = Ok sample_text
  ∧ isdir stale_world "/out" = true
  ∧ store stale_world
      !! join "/out" (sample_hashify sample_canonical sample_text +:+ ".json")
    = Some (EFile "old" 3)
  ∧ sample_dump sample_record (PyStr "md5") true stale_world
    = (Ok (join "/out" (sample_hashify sample_canonical sample_text +:+ ".json")),
       World (<[join "/out" (sample_hashify sample_canonical sample_text +:+ ".json")
                := EFile sample_text (clock stale_world)]> (store stale_world))
             (S (clock stale_world)) (draws stale_world)
             (trace stale_world
              ++ [EvWrite (join "/out"
                            (sample_hashify sample_canonical sample_text +:+ ".json"))
                          sample_text])).
Proof.
  split_and!; [reflexivity..|].
  apply (dump_overwrite_rewrites "/out" sample_dumps sample_hashify sample_uuid4
           sample_record stale_world sample_canonical sample_text "old" 3);
    reflexivity.
Defined.

Lemma dump_other_mode_draws_uuid_witness :
  PyStr "MD5" ≠ PyStr "md5"
  ∧ encode sample_record = Ok sample_canonical
  ∧ sample_dumps sample_canonical = Ok sample_text
  ∧ isdir fresh_world "/out" = true
  ∧ store fresh_world !! join "/out" (sample_uuid4 (draws fresh_world) +:+ ".json")
    = None
  ∧ parent_is_dir fresh_world
      (join "/out" (sample_uuid4 (draws fresh_world) +:+ ".json")) = true
  ∧ sample_dump sample_record (PyStr "MD5") false fresh_world
    = sample_dump sample_record (PyStr "uuid") false fresh_world
  ∧ sample_dump sample_record (PyStr "MD5") false fresh_world
    = (Ok (join "/out" (sample_uuid4 (draws fresh_world) +:+ ".json")),
       World (<[join "/out" (sample_uuid4 (draws fresh_world) +:+ ".json")
                := EFile sample_text (clock fresh_world)]> (store fresh_world))
             (S (clock fresh_world)) (S (draws fresh_world))
             (trace fresh_world
              ++ [EvWrite (join "/out" (sample_uuid4 (draws fresh_world) +:+ ".json"))
                          sample_text])).
Proof.
  split_and!; [discriminate|reflexivity..| |];
    apply (dump_other_mode_draws_uuid "/out" sample_dumps sample_hashify sample_uuid4
             sample_record (PyStr "MD5") false fresh_world sample_canonical
             sample_text); (discriminate || reflexivity).
Defined.

End ArchiverFacts.

(* ===================================================================== *)
(** * Paths, resolution and walks *)
(* ===================================================================== *)

Module PathFacts.
Import Locator.

#[local] Arguments walk : simpl never.
#[local] Arguments resolve_follow : simpl never.

(** ** Strings *)


Lemma sapp_cons c (a b : string) : String c a +:+ b = String c (a +:+ b).
Proof. reflexivity. Qed.

Lemma sapp_nil_r (s : string) : s +:+ "" = s.
Proof. induction s as [|c s IH]; [done|]. by rewrite sapp_cons, IH. Qed.

Lemma sapp_assoc (a b c : string) : (a +:+ b) +:+ c = a +:+ (b +:+ c).
Proof. induction a as [|x a IH]; [done|]. by rewrite !sapp_cons, IH. Qed.

Lemma sapp_eq_nil (a b : string) : a +:+ b = "" → a = "" ∧ b = "".
Proof. destruct a; [done|]. by rewrite sapp_cons. Qed.

Lemma has_slash_app a b : has_slash (a +:+ b) = has_slash a || has_slash b.
Proof.
  induction a as [|c a IH]; [done|]. rewrite sapp_cons. simpl.
  by rewrite IH, orb_assoc.
Qed.

(** ** [endswith] and [startswith] *)

Lemma endswith_slash a : endswith a "/" = true ↔ ∃ a', a = a' +:+ "/".
Proof.
  split.
  - induction a as [|c a IH]; simpl; [done|].
    intros [Heq%bool_decide_eq_true|Hend]%orb_true_iff.
    + exists "". by rewrite Heq.
    + destruct (IH Hend) as [a' ->]. by exists (String c a').
  - intros [a' ->]. induction a' as [|c a' IH]; [done|].
    rewrite sapp_cons. simpl. by rewrite IH, orb_true_r.
Qed.

Lemma endswith_app_cons a c b : endswith (a +:+ String c b) "/" = endswith (String c b) "/".
Proof.
  induction a as [|x a IH]; [done|]. rewrite sapp_cons.
  change (endswith (String x (a +:+ String c b)) "/")
    with (bool_decide (String x (a +:+ String c b) = "/") || endswith (a +:+ String c b) "/").
  rewrite IH. rewrite bool_decide_eq_false_2; [done|].
  intros [= _ Hnil]. by destruct a.
Qed.

Lemma endswith_no_slash s : s ≠ "" → has_slash s = false → endswith s "/" = false.
Proof.
  intros Hne Hns. apply not_true_is_false. intros [a' ->]%endswith_slash.
  rewrite has_slash_app in Hns. simpl in Hns. by rewrite orb_true_r in Hns.
Qed.

Lemma startswith_slash_false s : has_slash s = false → startswith s "/" = false.
Proof.
  unfold startswith. destruct s as [|c s]; [done|].
  cbn [has_slash String.prefix]. unfold is_slash. intros [Hc _]%orb_false_iff.
  apply bool_decide_eq_false in Hc. destruct (ascii_dec "/" c); [by subst|done].
Qed.

(** ** [split_slash] *)

Lemma split_slash_nonempty s : split_slash s ≠ [].
Proof.
  induction s as [|c s IH]; simpl; [done|].
  destruct (is_slash c); [done|]. by destruct (split_slash s).
Qed.

Lemma split_slash_no_slash s : has_slash s = false → split_slash s = [s].
Proof.
  induction s as [|c s IH]; simpl; [done|].
  intros [-> Hs]%orb_false_iff. by rewrite (IH Hs).
Qed.

Lemma split_slash_app a b :
  split_slash (a +:+ String "/" b) = split_slash a ++ split_slash b.
Proof.
  induction a as [|c a IH]; [done|]. rewrite sapp_cons. simpl. rewrite IH.
  destruct (is_slash c); [done|].
  pose proof (split_slash_nonempty a). by destruct (split_slash a).
Qed.



(** ** [join] *)

Lemma join_relative a b :
  startswith b "/" = false →
  join a b = if bool_decide (a = "") || endswith a "/" then a +:+ b
             else a +:+ "/" +:+ b.
Proof. intros Hb. unfold join. by rewrite Hb. Qed.

(** The components of a path with one more name. *)
Lemma split_slash_join_name a name :
  a ≠ "" → has_slash name = false →
  ∃ cs, (split_slash a = cs ∨ split_slash a = cs ++ [""])
        ∧ split_slash (join a name) = cs ++ [name].
Proof.
  intros Ha Hn. rewrite join_relative by (by apply startswith_slash_false).
  rewrite bool_decide_eq_false_2 by done. simpl.
  destruct (endswith a "/") eqn:Hend.
  - apply endswith_slash in Hend as [a' ->]. exists (split_slash a').
    split.
    + right. change (a' +:+ "/") with (a' +:+ String "/" ""). rewrite split_slash_app. reflexivity.
    + rewrite sapp_assoc. change ("/" +:+ name) with (String "/" name).
      by rewrite split_slash_app, (split_slash_no_slash name).
  - exists (split_slash a). split; [by left|].
    change (a +:+ "/" +:+ name) with (a +:+ String "/" name).
    by rewrite split_slash_app, (split_slash_no_slash name).
Qed.


Lemma startswith_app s t : s ≠ "" → startswith (s +:+ t) "/" = startswith s "/".
Proof.
  unfold startswith. destruct s as [|c s]; [done|]. intros _. rewrite sapp_cons.
  cbn [String.prefix]. destruct (ascii_dec "/" c); [|done].
  generalize (s +:+ t). intros u. by destruct s, u.
Qed.

Lemma join_nonempty a name : name ≠ "" → join a name ≠ "".
Proof.
  intros Hn. unfold join. destruct (startswith name "/"); [done|].
  destruct (_ || _); intros [_ H]%sapp_eq_nil; [done|].
  by apply sapp_eq_nil in H as [? _].
Qed.

Lemma isabs_join a name :
  a ≠ "" → startswith name "/" = false → isabs (join a name) = isabs a.
Proof.
  intros Ha Hn. rewrite join_relative by done. unfold isabs.
  destruct (_ || _); by rewrite startswith_app.
Qed.

Lemma endswith_join_top a top :
  top ≠ "" → startswith top "/" = false →
  endswith (join a top) "/" = endswith top "/".
Proof.
  intros Ht Hr. rewrite join_relative by done. destruct top as [|c top]; [done|].
  destruct (_ || _).
  - apply endswith_app_cons.
  - rewrite <-sapp_assoc. apply endswith_app_cons.
Qed.

Lemma join_assoc a top name :
  top ≠ "" → startswith top "/" = false → startswith name "/" = false →
  join a (join top name) = join (join a top) name.
Proof.
  intros Ht Hr Hn.
  assert (startswith (join top name) "/" = false) as Hr'.
  { pose proof (isabs_join top name Ht Hn) as H. unfold isabs in H. by rewrite H. }
  rewrite (join_relative a (join top name)) by done.
  rewrite (join_relative (join a top) name) by done.
  rewrite (endswith_join_top a top) by done.
  rewrite (bool_decide_eq_false_2 (join a top = "")) by (by apply join_nonempty).
  rewrite (join_relative a top), (join_relative top name) by done.
  rewrite (bool_decide_eq_false_2 (top = "")) by done. simpl.
  destruct (bool_decide (a = "") || endswith a "/"), (endswith top "/");
    by rewrite ?sapp_assoc.
Qed.

(** ** Path resolution *)



Lemma proper_name_spec name :
  proper_name name = true ↔
  has_slash name = false ∧ name ≠ "" ∧ name ≠ "." ∧ name ≠ "..".
Proof.
  unfold proper_name. rewrite !andb_true_iff, !negb_true_iff.
  rewrite !bool_decide_eq_false. tauto.
Qed.






(** ** Trees *)

Lemma wf_node_Dir es :
  wf_node (Dir es) = true ↔
  NoDup es.*1 ∧ Forall (λ e, proper_name e.1 = true ∧ wf_node e.2 = true) es.
Proof.
  simpl. rewrite andb_true_iff, bool_decide_eq_true, forallb_forall, Forall_forall.
  split; intros [Hnd H]; (split; [done|]); intros e He.
  - apply andb_true_iff, H. by apply list_elem_of_In.
  - apply andb_true_iff, H. by apply list_elem_of_In.
Qed.


Lemma child_lookup es name n :
  NoDup es.*1 → (name, n) ∈ es → child es name = Some n.
Proof.
  induction es as [|[k m] es IH]; simpl; [by intros _ ?%not_elem_of_nil|].
  intros [Hk Hnd]%NoDup_cons [Heq|Hin]%elem_of_cons.
  - simplify_eq. by rewrite decide_True.
  - rewrite decide_False; [by apply IH|].
    intros ->. apply Hk. apply list_elem_of_fmap. by exists (name, n).
Qed.












(** ** [normpath] against path resolution *)







(** ** Absolute normal paths *)
















(** ** What resolution preserves *)




(** ** Resolution with and without links *)

Lemma resolve_follow_nil b root st cur :
  resolve_follow b root st cur [] = Some (b, st, cur).
Proof. by destruct b. Qed.

Lemma resolve_follow_cons b root st cur comp rest :
  resolve_follow b root st cur (comp :: rest)
  = match cur with
    | Dir entries =>
        if bool_decide (comp = "") || bool_decide (comp = ".")
        then resolve_follow b root st cur rest
        else if bool_decide (comp = "..")
        then match st with
             | [] => resolve_follow b root [] cur rest
             | (_, parent) :: st' => resolve_follow b root st' parent rest
             end
        else match child entries comp with
             | Some (Link target) =>
                 match b with
                 | 0 => None
                 | S b' =>
                     if bool_decide (target = "") then None
                     else if isabs target
                     then resolve_follow b' root [] (Dir root)
                            (split_slash target ++ rest)
                     else resolve_follow b' root st cur
                            (split_slash target ++ rest)
                 end
             | Some n => resolve_follow b root ((comp, cur) :: st) n rest
             | None => None
             end
    | _ => None
    end.
Proof. by destruct b. Qed.




(** Resolution is compositional, links included: the budget, the stack
    and the entry that the first components leave are where the next ones
    start. *)
Lemma resolve_follow_app root b :
  ∀ cs1 cs2 st cur,
  resolve_follow b root st cur (cs1 ++ cs2)
  = match resolve_follow b root st cur cs1 with
    | Some (b', st', cur') => resolve_follow b' root st' cur' cs2
    | None => None
    end.
Proof.
  induction b as [|b IHb]; induction cs1 as [|c cs1 IH]; intros cs2 st cur;
    try (by rewrite resolve_follow_nil);
    rewrite <-app_comm_cons, !resolve_follow_cons;
    (destruct cur as [| | |es]; [done..|]);
    (destruct (_ || _); [apply IH|]);
    (destruct (bool_decide (c = ".."));
     [destruct st as [|[? parent] st]; apply IH|]);
    (destruct (child es c) as [[| |target|es']|]; try apply IH; try done).
  destruct (bool_decide (target = "")); [done|].
  destruct (isabs target); rewrite app_assoc; apply IHb.
Qed.

(** Following links only takes from the budget. *)
Lemma resolve_follow_le root b :
  ∀ comps st cur b' st' n,
  resolve_follow b root st cur comps = Some (b', st', n) → b' ≤ b.
Proof.
  induction b as [|b IHb]; induction comps as [|c comps IH];
    intros st cur b' st' n;
    try (rewrite resolve_follow_nil; intros [= <- _ _]; lia);
    rewrite resolve_follow_cons;
    (destruct cur as [| | |es]; [done..|]);
    (destruct (_ || _); [apply IH|]);
    (destruct (bool_decide (c = ".."));
     [destruct st as [|[? parent] st]; apply IH|]);
    (destruct (child es c) as [[| |target|es']|]; try apply IH; try done).
  destruct (bool_decide (target = "")); [done|].
  destruct (isabs target); intros ?%IHb; lia.
Qed.

Lemma follow_link_lt b root st dir (e : string * node) b' st' n :
  is_link e.2 = true → follow b root st dir e = Some (b', st', n) → b' < b.
Proof.
  unfold follow. destruct e.2 as [| |target|]; try done. intros _.
  destruct b as [|b]; [done|]. destruct (bool_decide (target = "")); [done|].
  destruct (isabs target); intros ?%resolve_follow_le; lia.
Qed.

(** What the entry [e] of a directory denotes is what the path to it
    denotes: the state that the walk carries is the resolution of the
    path it lists. *)
Lemma resolve_follow_entry b root st es (e : string * node) :
  NoDup es.*1 → e ∈ es → proper_name e.1 = true →
  resolve_follow b root st (Dir es) [e.1] = follow b root st (Dir es) e.
Proof.
  destruct e as [name n]. cbn [fst snd].
  intros Hnd Hin (_ & H1 & H2 & H3)%proper_name_spec.
  rewrite resolve_follow_cons. rewrite !bool_decide_eq_false_2 by done. simpl.
  rewrite (child_lookup es name n Hnd Hin).
  unfold follow. simpl. destruct n as [| |target|es']; try apply resolve_follow_nil.
  destruct b as [|b]; [done|]. by rewrite app_nil_r.
Qed.

Lemma resolve_follow_join b0 root st0 cur0 a b st es (e : string * node) :
  a ≠ "" → NoDup es.*1 → e ∈ es → proper_name e.1 = true →
  resolve_follow b0 root st0 cur0 (split_slash a) = Some (b, st, Dir es) →
  resolve_follow b0 root st0 cur0 (split_slash (join a e.1))
  = follow b root st (Dir es) e.
Proof.
  intros Ha Hnd Hin Hn Hres. pose proof Hn as (Hs & _)%proper_name_spec.
  destruct (split_slash_join_name a e.1 Ha Hs) as (cs & Hcs & ->).
  rewrite resolve_follow_app.
  assert (resolve_follow b0 root st0 cur0 cs = Some (b, st, Dir es)) as ->.
  { destruct Hcs as [<-|Hcs]; [done|].
    rewrite Hcs, resolve_follow_app in Hres.
    destruct (resolve_follow b0 root st0 cur0 cs) as [[[b1 st1] cur1]|]; [|done].
    rewrite resolve_follow_cons in Hres. destruct cur1; try done.
    simpl in Hres. by rewrite resolve_follow_nil in Hres. }
  by apply resolve_follow_entry.
Qed.

Lemma locate_budget_join fs top b st es (e : string * node) :
  NoDup es.*1 → e ∈ es → proper_name e.1 = true →
  locate_budget fs top = Some (b, st, Dir es) →
  locate_budget fs (join top e.1) = follow b (root fs) st (Dir es) e.
Proof.
  intros Hnd Hin Hn Hloc.
  assert (top ≠ "") as Htop by (intros ->; done).
  pose proof Hn as (Hs & Hne & _)%proper_name_spec.
  pose proof (startswith_slash_false _ Hs) as Hrel.
  unfold locate_budget in *.
  rewrite bool_decide_eq_false_2 in Hloc by done.
  rewrite bool_decide_eq_false_2 by (by apply join_nonempty).
  rewrite isabs_join by done.
  destruct (isabs top) eqn:Habs.
  - by apply resolve_follow_join.
  - rewrite join_assoc by done.
    apply resolve_follow_join; [|done..]. by apply join_nonempty.
Qed.

(** The names [os.walk] takes for directories are those for which
    [os.path.isdir(os.path.join(top, name))] holds. *)
Lemma enters_isdir fs top b st es (e : string * node) :
  NoDup es.*1 → e ∈ es → proper_name e.1 = true →
  locate_budget fs top = Some (b, st, Dir es) →
  enters b (root fs) st (Dir es) e = os_path_isdir fs (join top e.1).
Proof.
  intros Hnd Hin Hn Hloc. unfold enters, os_path_isdir, lookup, locate.
  rewrite (locate_budget_join fs top b st es e Hnd Hin Hn Hloc).
  by destruct (follow b (root fs) st (Dir es) e) as [[[b' st'] [| | |es']]|].
Qed.

(** ** The walk of a tree without links *)




Lemma flat_map_entries_ext {B} (f g : string * node → list B) (es : list (string * node)) :
  (∀ e, e ∈ es → f e = g e) → flat_map f es = flat_map g es.
Proof.
  induction es as [|e es IH]; intros Hext; [done|]. simpl.
  rewrite (Hext e) by left. by rewrite IH by (intros ??; apply Hext; by right).
Qed.

Lemma walk_Dir jumps root b st top es :
  walk jumps root b st top (Dir es)
  = (top,
     (filter (λ e, enters b root st (Dir es) e = true) es).*1,
     (filter (λ e, enters b root st (Dir es) e = false) es).*1)
    :: flat_map (λ e,
         match e.2 with
         | Link _ =>
             match jumps, follow b root st (Dir es) e with
             | S jumps', Some (b', st', Dir es') =>
                 walk jumps' root b' st' (join top e.1) (Dir es')
             | _, _ => []
             end
         | _ => walk jumps root b ((e.1, Dir es) :: st) (join top e.1) e.2
         end) es.
Proof. by destruct jumps. Qed.

(** The walk never runs out of jumps: each entrance through a link takes
    from the budget, so that any number of jumps above the budget gives
    the same walk. *)
Lemma walk_jumps_enough root j1 :
  ∀ j2 n b st top, b < j1 → b < j2 →
  walk j1 root b st top n = walk j2 root b st top n.
Proof.
  induction j1 as [|j1 IHj]; intros j2 n; [lia|].
  induction n as [| | |es IH] using node_ind'; intros b st top Hj1 Hj2;
    [by destruct j2..|].
  rewrite !walk_Dir. f_equal. apply flat_map_entries_ext. intros e He.
  rewrite Forall_forall in IH. specialize (IH e He).
  destruct e.2 as [| |target|es'] eqn:He2; [by apply IH..| |by apply IH].
  destruct j2 as [|j2]; [lia|].
  destruct (follow b root st (Dir es) e) as [[[b' st'] [| | |es']]|] eqn:Hf;
    try done.
  apply follow_link_lt in Hf; [|by rewrite He2]. apply IHj; lia.
Qed.

Lemma walk_leaf jumps root b st top n :
  is_dir n = false → walk jumps root b st top n = [].
Proof. by destruct jumps, n. Qed.

Lemma locate_budget_le fs p b st n :
  locate_budget fs p = Some (b, st, n) → b ≤ max_links.
Proof.
  unfold locate_budget. case_bool_decide; [done|]. apply resolve_follow_le.
Qed.

(** The walk is the generator of [os.walk]: the triple of [top], whose
    names are sorted by [os.path.isdir(os.path.join(top, name))], then the
    walk of [os.path.join(top, name)] for every name taken for a
    directory. *)
Lemma os_walk_unfold fs top b st es :
  wf_node (Dir es) = true → locate_budget fs top = Some (b, st, Dir es) →
  os_walk fs top
  = (top,
     filter (λ name, os_path_isdir fs (join top name) = true) es.*1,
     filter (λ name, os_path_isdir fs (join top name) = false) es.*1)
    :: flat_map (λ name, os_walk fs (join top name))
         (filter (λ name, os_path_isdir fs (join top name) = true) es.*1).
Proof.
  intros [Hnd Hwf]%wf_node_Dir Hloc. rewrite Forall_forall in Hwf.
  pose proof (locate_budget_le _ _ _ _ _ Hloc) as Hb.
  unfold os_walk at 1. rewrite Hloc, walk_Dir.
  assert (∀ l, (∀ e, e ∈ l → e ∈ es) →
    (filter (λ e, enters b (root fs) st (Dir es) e = true) l).*1
    = filter (λ name, os_path_isdir fs (join top name) = true) l.*1
    ∧ (filter (λ e, enters b (root fs) st (Dir es) e = false) l).*1
      = filter (λ name, os_path_isdir fs (join top name) = false) l.*1
    ∧ flat_map (λ e,
        match e.2 with
        | Link _ =>
            match follow b (root fs) st (Dir es) e with
            | Some (b', st', Dir es') =>
                walk max_links (root fs) b' st' (join top e.1) (Dir es')
            | _ => []
            end
        | _ => walk (S max_links) (root fs) b ((e.1, Dir es) :: st)
                 (join top e.1) e.2
        end) l
      = flat_map (λ name, os_walk fs (join top name))
          (filter (λ name, os_path_isdir fs (join top name) = true) l.*1))
    as Haux.
  { induction l as [|e l IH]; intros Hl; [done|].
    destruct IH as (IH1 & IH2 & IH3); [intros ??; apply Hl; by right|].
    assert (e ∈ es) as He by (apply Hl; left).
    destruct (Hwf e He) as [Hn _].
    pose proof (enters_isdir fs top b st es e Hnd He Hn Hloc) as Hent.
    pose proof (locate_budget_join fs top b st es e Hnd He Hn Hloc) as Hjoin.
    rewrite fmap_cons, !filter_cons. simpl. rewrite IH3, <-Hent.
    destruct (enters b (root fs) st (Dir es) e) eqn:Hd;
      repeat case_decide; try done;
      rewrite ?fmap_cons, ?IH1, ?IH2; (split_and!; [done..|]);
      unfold enters in Hd.
    - simpl. f_equal. unfold os_walk. rewrite Hjoin.
      destruct (follow b (root fs) st (Dir es) e)
        as [[[b' st'] [| |target'|es']]|] eqn:Hf; try done.
      unfold follow in Hf. destruct e.2 as [| |target|es2] eqn:He2;
        [by simplify_eq..| |by simplify_eq].
      assert (b' < b) as Hlt.
      { apply (follow_link_lt b (root fs) st (Dir es) e b' st' (Dir es'));
          [by rewrite He2|]. unfold follow. by rewrite He2. }
      apply walk_jumps_enough; lia.
    - destruct e.2 as [| |target|es2] eqn:He2.
      + by rewrite walk_leaf.
      + by rewrite walk_leaf.
      + by destruct (follow b (root fs) st (Dir es) e)
          as [[[b' st'] [| |target'|es']]|].
      + unfold follow in Hd. by rewrite He2 in Hd. }
  destruct (Haux es) as (H1 & H2 & H3); [done|]. by rewrite H1, H2, <-H3.
Qed.


End PathFacts.

(* ===================================================================== *)
(** * Properties of [yield_files] and [yield_cf_files] *)
(* ===================================================================== *)

Module LocatorFacts.
Import Locator Samples PathFacts.

(** ** Invalid criteria *)

Lemma filter_nonempty {A} (P : A → Prop) `{∀ x, Decision (P x)} (l : list A) x :
  x ∈ l → P x → filter P l ≠ [].
Proof.
  intros Hx HP Hnil. assert (x ∈ filter P l) as Hin by (by apply list_elem_of_filter).
  rewrite Hnil in Hin. by apply not_elem_of_nil in Hin.
Qed.

Lemma yield_files_invalid_raises fs (c : value) :
  invalid_criteria fs c →
  yield_files fs c = Raise (InvalidFileSearchCriteria (as_sequence c)).
Proof.
  unfold invalid_criteria, yield_files. fold (as_sequence c).
  generalize (as_sequence c). clear c.
  intros c [Hi|[(i & Hin & Hi)|(s & Hin & Hs)]]; cbv zeta.
  - by rewrite Hi.
  - destruct (negb (is_iterable c)); [done|].
    pose proof (filter_nonempty (λ i, is_basestring i = false) _ i Hin Hi) as Hne.
    by destruct (filter _ (iter c)).
  - destruct (negb (is_iterable c)); [done|].
    destruct (filter (λ i, is_basestring i = false) (iter c)); [|done].
    assert (s ∈ omap str_of (iter c)) as Hin'.
    { apply list_elem_of_omap. by exists (PyStr s). }
    pose proof (filter_nonempty (λ s, os_path_exists fs s = false) _ s Hin' Hs) as Hne.
    by destruct (filter _ (omap str_of (iter c))).
Qed.

Section Cf.

Variable cf_file : Type.
Variable cf_read : string → result cf_file.

(** C6, as amended: for every invalid criteria input (a non-iterable
    non-string, a collection with an element that is not a string, a lone
    path or a collection with a path that does not exist) the generator
    raises [InvalidFileSearchCriteria], having yielded no path, and
    [yield_cf_files] ends with the same exception without a record read or
    a warning logged.  The exception carries the criteria as the collection
    that was validated: the input itself when the input is not a string,
    and the one-element list that holds it when the input is a lone
    string. *)
Theorem yield_files_invalid fs (c : value) :
  invalid_criteria fs c →
  yield_files fs c = Raise (InvalidFileSearchCriteria (as_sequence c))
  ∧ yield_cf_files cf_file cf_read fs c
    = ([], Some (InvalidFileSearchCriteria (as_sequence c)))
  ∧ (is_basestring c = false → as_sequence c = c)
  ∧ (∀ s, c = PyStr s → as_sequence c = PyList [PyStr s]).
Proof.
  intros Hinv. pose proof (yield_files_invalid_raises fs c Hinv) as Hr.
  split_and!; [done| | |].
  - unfold yield_cf_files. by rewrite Hr.
  - unfold as_sequence. by intros ->.
  - by intros s ->.
Qed.

Lemma cf_loop_app l1 l2 evs1 :
  cf_loop cf_file cf_read l1 = (evs1, None) →
  cf_loop cf_file cf_read (l1 ++ l2)
  = (evs1 ++ (cf_loop cf_file cf_read l2).1, (cf_loop cf_file cf_read l2).2).
Proof.
  revert evs1. induction l1 as [|p l1 IH]; intros evs1; simpl.
  - intros [= <-]. by destruct (cf_loop _ _ l2).
  - destruct (cf_read p) as [f|e].
    + destruct (cf_loop _ _ l1) as [evs r] eqn:Hl1. intros [= <- ->].
      by rewrite (IH evs eq_refl).
    + destruct (is_io_error e); [|done].
      destruct (cf_loop _ _ l1) as [evs r] eqn:Hl1. intros [= <- ->].
      by rewrite (IH evs eq_refl).
Qed.

(** C8: when the reader fails with an I/O-class error on a path that the
    loop reaches, a warning is logged for it, no record is yielded for it,
    the error does not end the generator, and the loop goes on with the
    next path: the run is the run before it, the warning, and the run of
    the paths after it, and its records are those of the run without that
    path. *)
Theorem yield_cf_files_skips fs (targets : value) l1 p l2 e evs1 :
  yield_files fs targets = Ok (l1 ++ p :: l2) →
  cf_read p = Raise e → is_io_error e = true →
  cf_loop cf_file cf_read l1 = (evs1, None) →
  yield_cf_files cf_file cf_read fs targets
  = (evs1 ++ Warned (rejected p) :: (cf_loop cf_file cf_read l2).1,
     (cf_loop cf_file cf_read l2).2)
  ∧ records cf_file (yield_cf_files cf_file cf_read fs targets).1
    = records cf_file (cf_loop cf_file cf_read (l1 ++ l2)).1.
Proof.
  intros Hy Hp Hio Hl1. unfold yield_cf_files. rewrite Hy.
  rewrite (cf_loop_app _ _ _ Hl1). simpl. rewrite Hp, Hio.
  destruct (cf_loop _ _ l2) as [evs2 r2] eqn:Hl2. simpl. split; [done|].
  rewrite (cf_loop_app _ _ _ Hl1), Hl2. simpl.
  unfold records. by rewrite !omap_app.
Qed.

End Cf.


(** ** What [yield_files] yields *)













(** ** The parent-directory de-duplication *)

Lemma filter_not_basestring (ss : list string) :
  filter (λ i, is_basestring i = false) (PyStr <$> ss) = [].
Proof.
  induction ss as [|x ss IH]; [done|].
  rewrite fmap_cons, filter_cons_False by done. exact IH.
Qed.

Lemma omap_str_of (ss : list string) : omap str_of (PyStr <$> ss) = ss.
Proof.
  induction ss as [|x ss IH]; [done|]. rewrite fmap_cons.
  change (omap str_of (PyStr x :: (PyStr <$> ss)))
    with (x :: omap str_of (PyStr <$> ss)).
  by rewrite IH.
Qed.

Lemma filter_missing fs (ss : list string) :
  Forall (λ s, os_path_exists fs s = true) ss →
  filter (λ s, os_path_exists fs s = false) ss = [].
Proof.
  induction 1 as [|x ss Hx _ IH]; [done|].
  rewrite filter_cons_False by (by rewrite Hx). exact IH.
Qed.

Lemma yield_files_strings fs (ss : list string) :
  Forall (λ s, os_path_exists fs s = true) ss →
  yield_files fs (PyList (PyStr <$> ss))
  = Ok (flat_map (yield_target fs) (elements (dedupe (list_to_set ss)))).
Proof.
  intros Hex. unfold yield_files.
  cbn [is_basestring is_iterable negb iter].
  rewrite filter_not_basestring, omap_str_of.
  by rewrite (filter_missing fs ss Hex).
Qed.

Lemma dedupe_single D : dirname D ≠ D → dedupe {[D]} = {[D]}.
Proof.
  intros Hd. unfold dedupe. rewrite elements_singleton.
  change (sorted [D]) with [D]. simpl. unfold dedupe_step.
  rewrite decide_False; [done|set_solver].
Qed.

Lemma dedupe_pair D F :
  D ≠ F → dirname F = D → dirname D ≠ D → dirname D ≠ F →
  dedupe {[D; F]} = {[D]}.
Proof.
  intros Hne HF HD1 HD2. unfold dedupe.
  assert (sorted (elements ({[D; F]} : gset string)) ≡ₚ [D; F]) as Hperm.
  { unfold sorted. rewrite merge_sort_Permutation.
    rewrite elements_union_singleton by set_solver.
    by rewrite elements_singleton. }
  symmetry in Hperm. apply Permutation_length_2_inv in Hperm as [Hs|Hs];
    rewrite Hs; simpl; unfold dedupe_step; rewrite HF;
    repeat case_decide; set_solver.
Qed.

(** Away from a root the de-duplication does what C4 says: a directory
    that is not its own [dirname], with an entry of it, resolves as the
    directory alone, path for path. *)
Lemma yield_files_parent_dedup fs D F :
  os_path_exists fs D = true → os_path_exists fs F = true →
  D ≠ F → dirname F = D → dirname D ≠ D → dirname D ≠ F →
  yield_files fs (PyList [PyStr D; PyStr F]) = yield_files fs (PyList [PyStr D]).
Proof.
  intros HeD HeF Hne HF HD1 HD2.
  change (PyList [PyStr D; PyStr F]) with (PyList (PyStr <$> [D; F])).
  change (PyList [PyStr D]) with (PyList (PyStr <$> [D])).
  rewrite (yield_files_strings fs [D; F]) by (by repeat constructor).
  rewrite (yield_files_strings fs [D]) by (by repeat constructor).
  assert (list_to_set [D; F] = ({[D; F]} : gset string)) as -> by set_solver.
  assert (list_to_set [D] = ({[D]} : gset string)) as -> by set_solver.
  by rewrite dedupe_pair, dedupe_single.
Qed.

(** C4 fails at the root.  [dirname] of the root directory is the root
    itself, so the loop drops the criterion "/" as if it were its own
    child: with the file "/a.nc" beside it only that file is yielded, and
    alone it yields nothing, although the directory holds two files. *)
Theorem yield_files_root_drops_itself :
  dirname "/a.nc" = "/"
  ∧ os_path_isdir fs_root "/" = true
  ∧ os_path_isfile fs_root "/a.nc" = true
  ∧ os_path_isfile fs_root "/b.nc" = true
  ∧ yield_files fs_root (PyList [PyStr "/"; PyStr "/a.nc"]) = Ok ["/a.nc"]
  ∧ yield_files fs_root (PyList [PyStr "/"]) = Ok [].
Proof. split_and!; reflexivity. Qed.

(** ** Examples *)



(** The kinds of invalid criteria on the sample tree. *)
Example invalid_not_iterable :
  yield_files fs_run1 (PyInt 3) = Raise (InvalidFileSearchCriteria (PyInt 3)).
Proof. reflexivity. Qed.

Example invalid_element :
  yield_files fs_run1 (PyList [PyStr "/data/run1"; PyInt 3])
  = Raise (InvalidFileSearchCriteria (PyList [PyStr "/data/run1"; PyInt 3])).
Proof. reflexivity. Qed.

(** C6, as stated, fails on a lone string: it is wrapped before it is
    validated, so for a lone path that does not exist the exception
    carries the one-element list, not the input. *)
Lemma yield_files_lone_string_wrapped :
  os_path_exists fs_run1 "/data/missing" = false
  ∧ yield_files fs_run1 (PyStr "/data/missing")
    = Raise (InvalidFileSearchCriteria (PyList [PyStr "/data/missing"]))
  ∧ yield_files fs_run1 (PyStr "/data/missing")
    ≠ Raise (InvalidFileSearchCriteria (PyStr "/data/missing")).
Proof. split_and!; [reflexivity|reflexivity|discriminate]. Qed.

Lemma yield_files_invalid_witness :
  invalid_criteria fs_run1 (PyList [PyStr "/data/run1"; PyStr "/data/missing"])
  ∧ yield_files fs_run1 (PyList [PyStr "/data/run1"; PyStr "/data/missing"])
    = Raise (InvalidFileSearchCriteria
               (as_sequence (PyList [PyStr "/data/run1"; PyStr "/data/missing"])))
  ∧ yield_cf_files string nc_reader fs_run1
      (PyList [PyStr "/data/run1"; PyStr "/data/missing"])
    = ([], Some (InvalidFileSearchCriteria
                   (as_sequence (PyList [PyStr "/data/run1"; PyStr "/data/missing"]))))
  ∧ (is_basestring (PyList [PyStr "/data/run1"; PyStr "/data/missing"]) = false →
     as_sequence (PyList [PyStr "/data/run1"; PyStr "/data/missing"])
     = PyList [PyStr "/data/run1"; PyStr "/data/missing"])
  ∧ (∀ s, PyList [PyStr "/data/run1"; PyStr "/data/missing"] = PyStr s →
     as_sequence (PyList [PyStr "/data/run1"; PyStr "/data/missing"])
     = PyList [PyStr s]).
Proof.
  assert (invalid_criteria fs_run1
            (PyList [PyStr "/data/run1"; PyStr "/data/missing"])) as Hinv.
  { right. right. exists "/data/missing". split; [|reflexivity].
    cbn. set_solver. }
  split; [exact Hinv|].
  apply (yield_files_invalid string nc_reader fs_run1
           (PyList [PyStr "/data/run1"; PyStr "/data/missing"]) Hinv).
Defined.

(** The example of the specification: two records, one warning, and the
    file after the rejected one is still read. *)
Example yield_cf_files_run1 :
  yield_cf_files string nc_reader fs_run1 (PyList [PyStr "/data/run1"])
  = ([Yielded "/data/run1/a.nc"; Closed;
      Warned "Non netCDF file rejected: /data/run1/c.txt";
      Yielded "/data/run1/b.nc"; Closed], None)
  ∧ length (records string
      (yield_cf_files string nc_reader fs_run1 (PyList [PyStr "/data/run1"])).1) = 2
  ∧ warnings string
      (yield_cf_files string nc_reader fs_run1 (PyList [PyStr "/data/run1"])).1
    = ["Non netCDF file rejected: /data/run1/c.txt"].
Proof. split_and!; reflexivity. Qed.

(** An error that is not of the I/O class ends the generator. *)
Example yield_cf_files_other_error :
  yield_cf_files string
    (λ fpath, if endswith fpath ".txt" then Raise ValueError else Ok fpath)
    fs_run1 (PyList [PyStr "/data/run1"])
  = ([Yielded "/data/run1/a.nc"; Closed], Some ValueError).
Proof. reflexivity. Qed.

Lemma yield_cf_files_skips_witness :
  yield_files fs_run1 (PyList [PyStr "/data/run1"])
    = Ok (["/data/run1/a.nc"] ++ "/data/run1/c.txt" :: ["/data/run1/b.nc"])
  ∧ nc_reader "/data/run1/c.txt" = Raise IOError
  ∧ is_io_error IOError = true
  ∧ cf_loop string nc_reader ["/data/run1/a.nc"]
    = ([Yielded "/data/run1/a.nc"; Closed], None)
  ∧ yield_cf_files string nc_reader fs_run1 (PyList [PyStr "/data/run1"])
    = ([Yielded "/data/run1/a.nc"; Closed]
       ++ Warned (rejected "/data/run1/c.txt")
          :: (cf_loop string nc_reader ["/data/run1/b.nc"]).1,
       (cf_loop string nc_reader ["/data/run1/b.nc"]).2)
  ∧ records string
      (yield_cf_files string nc_reader fs_run1 (PyList [PyStr "/data/run1"])).1
    = records string
        (cf_loop string nc_reader (["/data/run1/a.nc"] ++ ["/data/run1/b.nc"])).1.
Proof.
  split_and!; [reflexivity..| |];
    apply (yield_cf_files_skips string nc_reader fs_run1
             (PyList [PyStr "/data/run1"]) ["/data/run1/a.nc"]
             "/data/run1/c.txt" ["/data/run1/b.nc"] IOError
             [Yielded "/data/run1/a.nc"; Closed]); reflexivity.
Defined.

End LocatorFacts.
